(** * Inventory reconciliation and range parsing of the data administration layer

    A shallow embedding of

    - [projectCreation/import_images.py]: the import script (scan of the
      file server directory, filter against the database, bulk insert);
    - [modules/DataAdministration/app.py]: [DataAdministrator._parse_range]
      and the request handlers [list_images], [remove_images], [add_images],
      [upload_images] and [scan_for_images].

    Python strings are modelled as [string] (the bytes of their UTF-8
    encoding, where searching and replacing substrings work as on the
    characters; [str.lower()] is a parameter), Python sets
    of strings as [gset string], dictionaries with string keys as
    [gmap string _], and the mutable dictionaries of a request body as
    objects of an explicit store. *)

From Stdlib Require Import ZArith QArith Ascii String List Lia.
From stdpp Require Import gmap strings list fin_maps.

Local Open Scope Z_scope.

(** ** Python string operations *)

Module PyStr.

(** [s.startswith(p)] on character lists. *)
Fixpoint starts_with (p s : list ascii) : bool :=
  match p, s with
  | [], _ => true
  | _ :: _, [] => false
  | a :: p', b :: s' => if Ascii.eqb a b then starts_with p' s' else false
  end.

(** [s.endswith(p)]. *)
Definition ends_with (p s : list ascii) : bool :=
  starts_with (rev p) (rev s).

(** [p in s] for two strings: [p] occurs in [s] as a substring. *)
Fixpoint contains (p s : list ascii) : bool :=
  starts_with p s ||
  match s with
  | [] => false
  | _ :: s' => contains p s'
  end.

(** The ASCII case table: the letters [A]..[Z] are mapped to [a]..[z],
    every other character is kept. This is what [str.lower()] does to the
    characters of a string of ASCII characters; it is not [str.lower()],
    which follows the Unicode case mapping. *)
Definition lower_ascii (c : ascii) : ascii :=
  let n := nat_of_ascii c in
  if (65 <=? n)%nat && (n <=? 90)%nat then ascii_of_nat (n + 32) else c.

(** [s.rfind(c)] for a single character [c]: the highest index of [c] in
    [s], or [-1]. The accumulator [i] is the index of the head of [s]. *)
Fixpoint rfind_from (c : ascii) (s : list ascii) (i : Z) (found : Z) : Z :=
  match s with
  | [] => found
  | a :: s' => rfind_from c s' (i + 1) (if Ascii.eqb a c then i else found)
  end.

Definition rfind (c : ascii) (s : list ascii) : Z := rfind_from c s 0 (-1).

(** The loop of [genericpath._splitext] that skips the leading dots of the
    file name: [true] when some character of [p] at an index in
    [[filenameIndex, dotIndex)] is not a dot. *)
Definition has_non_dot (p : list ascii) (filenameIndex dotIndex : Z) : bool :=
  existsb (fun c => negb (Ascii.eqb c "."%char))
          (take (Z.to_nat (dotIndex - filenameIndex))
                (drop (Z.to_nat filenameIndex) p)).

(** [posixpath.splitext(p)]: the pair (root, ext). The extension starts at
    the last dot of the last path component, unless that component has
    only leading dots before it. *)
Definition splitext (p : list ascii) : list ascii * list ascii :=
  let sepIndex := rfind "/"%char p in
  let dotIndex := rfind "."%char p in
  if (sepIndex <? dotIndex)%Z && has_non_dot p (sepIndex + 1) dotIndex
  then (take (Z.to_nat dotIndex) p, drop (Z.to_nat dotIndex) p)
  else (p, []).

(** [s.replace(old, new)] for a non-empty [old]: the occurrences of [old]
    are found left to right without overlap and each is replaced by [new].
    [skip] counts the characters of a matched occurrence still to be
    dropped. *)
Fixpoint replace_from (old new : list ascii) (skip : nat) (s : list ascii)
  : list ascii :=
  match s with
  | [] => []
  | c :: s' =>
      match skip with
      | S k => replace_from old new k s'
      | O =>
          if starts_with old s
          then new ++ replace_from old new (Nat.pred (length old)) s'
          else c :: replace_from old new O s'
      end
  end.

(** [s.replace(old, new)]; for an empty [old] Python puts [new] before
    every character and at the end. *)
Definition replace (old new s : list ascii) : list ascii :=
  match old with
  | [] => flat_map (fun c => new ++ [c]) s ++ new
  | _ :: _ => replace_from old new O s
  end.

End PyStr.

Local Open Scope string_scope.
Local Open Scope list_scope.

(** The same operations on [string]. *)
Definition chars (s : string) : list ascii := list_ascii_of_string s.
Definition str (l : list ascii) : string := string_of_list_ascii l.

Definition str_endswith (s suffix : string) : bool :=
  PyStr.ends_with (chars suffix) (chars s).
Definition str_startswith (s pre : string) : bool :=
  PyStr.starts_with (chars pre) (chars s).
Definition str_contains (sub s : string) : bool :=
  PyStr.contains (chars sub) (chars s).
Definition str_replace (s old new : string) : string :=
  str (PyStr.replace (chars old) (chars new) (chars s)).
Definition os_path_splitext (p : string) : string * string :=
  let '(r, e) := PyStr.splitext (chars p) in (str r, str e).

(** [str.lower()] follows the Unicode case mapping, which is no part of the
    code: the functions that call it take it as a parameter [lower]. On a
    string of ASCII characters it is the ASCII case table, [ascii_lower]. *)
Definition ascii_lower (s : string) : string :=
  str (map PyStr.lower_ascii (chars s)).

Definition is_ascii (s : string) : bool :=
  forallb (fun c => (nat_of_ascii c <? 128)%nat) (chars s).

(** What is known of [str.lower()] without its case table: on the strings
    of ASCII characters it is [ascii_lower]. *)
Definition lower_on_ascii (lower : string → string) : Prop :=
  ∀ s, is_ascii s = true → lower s = ascii_lower s.

(** [os.sep] on the file server (POSIX). *)
Definition os_sep : string := "/".

(** ** The import script, [projectCreation/import_images.py] *)

Module ImportImages.

(** What the script reads from the file server: the result of
    [util.helpers.listDirectory(dir, recursive=True)] (a helper that is not
    part of the script) and [os.path.isdir]. *)
Record filesystem := {
  listDirectory : string → list string;
  os_path_isdir : string → bool;
}.

(** The rows of the project's [image] table, as their [filename] column,
    in insertion order. *)
Abbreviation table := (list string).

(** What a run of the script leaves behind: the lines it prints, the rows
    it passes to [dbConn.insert], and the table afterwards. *)
Record run := {
  printed : list string;
  inserted : list string;
  table_after : table;
}.

(** What [dbConn.insert] leaves behind: the table, and whether it raised. *)
Record insert_outcome := {
  table_left : table;
  insert_raised : bool;
}.

(** The rows are pairwise different and none of them is in the table. *)
Definition all_new (tbl rows : list string) : bool :=
  forallb (fun f => negb (bool_decide (f ∈ tbl))) rows
  && bool_decide (NoDup rows).

(** Python's [a.difference(b)] on sets. *)
Definition difference (a b : gset string) : gset string := a ∖ b.

Section Script.

(** [str.lower()]. *)
Variable lower : string → string.
Variable fs : filesystem.
(** [util.helpers.VALID_IMAGE_EXTENSIONS], a deployment constant. *)
Variable VALID_IMAGE_EXTENSIONS : list string.
(** [dbConn.execute('SELECT filename FROM image', None, 'all')]: the
    rows, or [None]. *)
Variable execute_select : table → option (list string).
(** What [dbConn.insert] does with rows of which one is already in the
    table (or occurs twice): that is decided by the storage layer and its
    constraints, which are not part of the script. *)
Variable insert_conflict : table → list string → insert_outcome.

(** [dbConn.insert('INSERT INTO image (filename) VALUES %s', rows)]: new
    rows are appended. *)
Definition db_insert (tbl rows : list string) : insert_outcome :=
  if all_new tbl rows
  then {| table_left := tbl ++ rows; insert_raised := false |}
  else insert_conflict tbl rows.

(** Lines 59-60: the base directory ends with a separator. *)
Definition with_trailing_sep (imgBaseDir : string) : string :=
  if negb (str_endswith imgBaseDir os_sep)
  then imgBaseDir +:+ os_sep
  else imgBaseDir.

(** Line 76: [baseName = i.replace(imgBaseDir, '')]. *)
Definition baseName (imgBaseDir i : string) : string :=
  str_replace i imgBaseDir "".

(** Lines 69-74: the two [continue] tests of the loop body; [true] when
    the path [i] reaches line 76. *)
Definition is_image_file (i : string) : bool :=
  if os_path_isdir fs i then false
  else
    let '(_, ext) := os_path_splitext i in
    if negb (bool_decide (lower ext ∈ VALID_IMAGE_EXTENSIONS))
    then false
    else true.

(** Lines 68-77: one iteration of the loop over [imgFiles]. *)
Definition locate_step (imgBaseDir : string) (imgs : gset string)
           (i : string) : gset string :=
  if is_image_file i then imgs ∪ {[ baseName imgBaseDir i ]} else imgs.

(** Lines 65-77: [imgs], the set of base names of the image files. *)
Definition locate (imgBaseDir : string) : gset string :=
  let imgFiles := listDirectory fs imgBaseDir in
  fold_left (locate_step imgBaseDir) imgFiles ∅.

(** Lines 79-100: filter against the table, bulk insert. The order of
    [list(set)] is the order of [elements]. When the insert raises, the
    script ends there and [Done.] is not printed. *)
Definition ingest (imgs : gset string) (tbl : table) : run :=
  let out := ["Filter images already in database..."] in
  let imgs_existing : gset string :=
    match execute_select tbl with
    | Some rows => list_to_set rows
    | None => ∅
    end in
  let imgs := elements (difference imgs imgs_existing) in
  let out := (out ++ ["Adding to database..."])%list in
  let outcome := db_insert tbl imgs in
  {| printed := if insert_raised outcome then out else (out ++ ["Done."])%list;
     inserted := imgs;
     table_after := table_left outcome |}.

(** Lines 55-100: the script from the base directory on. [None] is the
    exception of line 57. *)
Definition main (staticfiles_dir : string) (tbl : table) : option run :=
  if negb (os_path_isdir fs staticfiles_dir) then None
  else
    let imgBaseDir := with_trailing_sep staticfiles_dir in
    let imgs := locate imgBaseDir in
    let r := ingest imgs tbl in
    Some {| printed := "Locating image paths..." :: printed r;
            inserted := inserted r;
            table_after := table_after r |}.

End Script.

(** Modelled from the spec: the Inventory Differ of section 4.2, of which
    the script has the [diskOnly] direction only (line 89);
    [diff(D, B) = (diskOnly, dbOnly)] with [diskOnly = D - B] and
    [dbOnly = B - D]. *)
Definition diff (diskKeys dbKeys : gset string) : gset string * gset string :=
  (difference diskKeys dbKeys, difference dbKeys diskKeys).

(** The spec's malformed file names (section 4.3): the empty string, an
    absolute path, a path with the sequence [..]. *)
Definition invalid_name (f : string) : bool :=
  String.eqb f "" || str_startswith f "/" || str_contains ".." f.

(** A driver whose [SELECT] returns the rows of the table. *)
Definition select_rows (tbl : table) : option (list string) := Some tbl.

(** A storage layer that refuses a batch with a row that is not new: the
    insert raises and the table stays as it is. *)
Definition refuse_insert (tbl rows : list string) : insert_outcome :=
  {| table_left := tbl; insert_raised := true |}.

(** The directory of the spec's scan example, under [/data/]. *)
Definition example_fs : filesystem := {|
  listDirectory := fun _ =>
    ["/data/a.jpg"; "/data/b.JPG"; "/data/c.txt"; "/data/sub";
     "/data/sub/d.png"];
  os_path_isdir := fun p => bool_decide (p ∈ ["/data"; "/data/"; "/data/sub"]);
|}.

(** A directory [trip/data] below the base directory [/data/]. *)
Definition nested_fs : filesystem := {|
  listDirectory := fun _ =>
    ["/data/trip"; "/data/trip/data"; "/data/trip/data/a.jpg"];
  os_path_isdir := fun p =>
    bool_decide (p ∈ ["/data"; "/data/"; "/data/trip"; "/data/trip/data"]);
|}.

End ImportImages.

Import ImportImages.

(** ** The request handlers, [modules/DataAdministration/app.py] *)

Module DataAdministration.

(** *** Python values and the store *)

(** The values a request body (parsed JSON) and the handlers' defaults are
    made of. Dictionaries are mutable objects: a value refers to one by
    its index in the store. A float is given by the rational it holds. *)
#[warnings="-register-all"] Inductive val :=
| VNone
| VBool (b : bool)
| VInt (z : Z)
| VFloat (q : Q)
| VStr (s : string)
| VList (l : list val)
| VTime (hour minute second microsecond : Z)   (* [datetime.time] *)
| VDateTime (t : Z)                            (* [datetime.datetime] *)
| VRef (l : nat).

Abbreviation dict := (gmap string val).
Abbreviation heap := (list dict).

(** [datetime.time.min], the time of day [00:00:00]. *)
Definition datetime_time_min : val := VTime 0 0 0 0.

(** An instant is a [datetime.datetime]; a [datetime.time] is a time of
    day, without a date. *)
Definition is_instant (v : val) : bool :=
  match v with
  | VDateTime _ => true
  | _ => false
  end.

(** Modelled from the spec: the error taxonomy of section 7, for the
    failures of the middleware, which is not part of [app.py]. *)
Inductive failure :=
| NotFound | Unauthorized | InvalidParameter | Duplicate
| DependencyConflict | StorageFailure | DiskIOFailure.

(** Exceptions. [InvalidReference] is no Python exception: it marks a
    reference that points outside the store. *)
Inductive exn :=
| TypeError
| AttributeError
| KeyError (key : string)
| HTTPError (status : Z) (body : string)
| Failure (f : failure)
| InvalidReference.

(** The arguments of the two middleware calls. *)
Record listImages_args := {
  la_project : string;
  la_imageAddedRange : option (val * val);
  la_lastViewedRange : option (val * val);
  la_viewcountRange : option (val * val);
  la_numAnnoRange : option (val * val);
  la_numPredRange : option (val * val);
  la_orderBy : val;
  la_order : val;
  la_limit : val;
}.

Record removeImages_args := {
  ra_project : string;
  ra_imageIDs : val;
  ra_forceRemove : val;
  ra_deleteFromDisk : val;
}.

Inductive mcall :=
| CallListImages (a : listImages_args)
| CallRemoveImages (a : removeImages_args).

(** The state a handler runs in: the store and the middleware calls made
    so far. *)
Record state := {
  store : heap;
  calls : list mcall;
}.

Inductive result (A : Type) :=
| Ok (a : A)
| Raise (e : exn).
Arguments Ok {A} a.
Arguments Raise {A} e.

Definition M (A : Type) : Type := state → result A * state.

Definition ret {A} (a : A) : M A := fun st => (Ok a, st).
Definition raise {A} (e : exn) : M A := fun st => (Raise e, st).
Definition bind {A B} (m : M A) (k : A → M B) : M B := fun st =>
  match m st with
  | (Ok a, st') => k a st'
  | (Raise e, st') => (Raise e, st')
  end.
(** [try: m except Exception as e: h e]. *)
Definition try_except {A} (m : M A) (h : exn → M A) : M A := fun st =>
  match m st with
  | (Ok a, st') => (Ok a, st')
  | (Raise e, st') => h e st'
  end.

Notation "'let!' x ':=' m 'in' k" := (bind m (fun x => k))
  (at level 10, x name, m at level 100, k at level 200).
Notation "'run!' m 'in' k" := (bind m (fun _ => k))
  (at level 10, m at level 100, k at level 200).

(** The object a reference points to. *)
Definition deref (l : nat) : M dict := fun st =>
  match store st !! l with
  | Some d => (Ok d, st)
  | None => (Raise InvalidReference, st)
  end.

Definition is_str (key : string) (v : val) : bool :=
  match v with
  | VStr s => String.eqb s key
  | _ => false
  end.

(** [key in container] for a string [key]. *)
Definition py_in (key : string) (container : val) : M bool :=
  match container with
  | VRef l =>
      let! d := deref l in
      ret (match d !! key with Some _ => true | None => false end)
  | VList l => ret (existsb (is_str key) l)
  | VStr s => ret (str_contains key s)
  | _ => raise TypeError
  end.

(** [container[key]] for a string [key]. *)
Definition py_getitem (container : val) (key : string) : M val :=
  match container with
  | VRef l =>
      let! d := deref l in
      match d !! key with
      | Some v => ret v
      | None => raise (KeyError key)
      end
  | _ => raise TypeError
  end.

(** [v.copy()]: a new dictionary with the same items; a list is copied as
    a value; no other value has the method. *)
Definition py_copy (v : val) : M val :=
  match v with
  | VRef l =>
      let! d := deref l in
      fun st => (Ok (VRef (length (store st))),
                 {| store := store st ++ [d]; calls := calls st |})
  | VList l => ret (VList l)
  | _ => raise AttributeError
  end.

(** [container[key] = v] for a string [key]. *)
Definition py_setitem (container : val) (key : string) (v : val) : M unit :=
  match container with
  | VRef l =>
      let! d := deref l in
      fun st => (Ok tt, {| store := <[l := <[key := v]> d]> (store st);
                           calls := calls st |})
  | _ => raise TypeError
  end.

(** [v.lower()], with [str.lower()] as [lower]. *)
Definition py_lower (lower : string → string) (v : val) : M val :=
  match v with
  | VStr s => ret (VStr (lower s))
  | _ => raise AttributeError
  end.

Definition is_None (v : val) : bool :=
  match v with
  | VNone => true
  | _ => false
  end.

(** *** [DataAdministrator._parse_range] (lines 46-64) *)

Definition _parse_range (params : val) (paramName : string)
           (minValue maxValue : val) : M (option (val * val)) :=
  if is_None params then ret None
  else
    let! present := py_in paramName params in
    if negb present then ret None
    else
      let! e := py_getitem params paramName in
      let! entry := py_copy e in
      let! hasMin := py_in "min" entry in
      run! (if negb hasMin then py_setitem entry "min" minValue else ret tt) in
      let! hasMax := py_in "max" entry in
      run! (if negb hasMax then py_setitem entry "max" maxValue else ret tt) in
      let! lo := py_getitem entry "min" in
      let! hi := py_getitem entry "max" in
      ret (Some (lo, hi)).

(** The float [1e9]. *)
Definition float_1e9 : val := VFloat (1000000000 # 1).

(** The bodies of the responses. *)
Inductive response (R : Type) :=
| Response (result : R)                (* [{'response': result}] *)
| ImagesDeleted (images_deleted : R)   (* [{'status': 0, 'images_deleted': ...}] *)
| StatusError (e : exn).               (* [{'status': 1, 'message': str(e)}] *)
Arguments Response {R} result.
Arguments ImagesDeleted {R} images_deleted.
Arguments StatusError {R} e.

Section Handlers.

(** The results of the middleware. *)
Variable R : Type.
(** [str.lower()]. *)
Variable lower : string → string.
(** [self.middleware.listImages] and [self.middleware.removeImages]:
    each returns or raises. *)
Variable mw_listImages : listImages_args → exn + R.
Variable mw_removeImages : removeImages_args → exn + R.

Definition call_listImages (a : listImages_args) : M R := fun st =>
  let st' := {| store := store st; calls := calls st ++ [CallListImages a] |} in
  match mw_listImages a with
  | inr r => (Ok r, st')
  | inl e => (Raise e, st')
  end.

Definition call_removeImages (a : removeImages_args) : M R := fun st =>
  let st' := {| store := store st; calls := calls st ++ [CallRemoveImages a] |} in
  match mw_removeImages a with
  | inr r => (Ok r, st')
  | inl e => (Raise e, st')
  end.

(** Lines 85-102 of [list_images]: the arguments of the middleware
    call. [now] is [helpers.current_time()]. *)
Definition list_images_args (now params : val) (project : string)
  : M listImages_args :=
  let! imageAddedRange := _parse_range params "imageAddedRange" datetime_time_min now in
  let! lastViewedRange := _parse_range params "lastViewedRange" datetime_time_min now in
  let! viewcountRange := _parse_range params "viewcountRange" (VInt 0) float_1e9 in
  let! numAnnoRange := _parse_range params "numAnnoRange" (VInt 0) float_1e9 in
  let! numPredRange := _parse_range params "numPredRange" (VInt 0) float_1e9 in
  let! hasOrderBy := py_in "orderBy" params in
  let! orderBy := (if hasOrderBy then py_getitem params "orderBy" else ret VNone) in
  let! hasOrder := py_in "order" params in
  let! order := (if hasOrder
                 then (let! o := py_getitem params "order" in py_lower lower o)
                 else ret VNone) in
  let! hasLimit := py_in "limit" params in
  let! limit := (if hasLimit then py_getitem params "limit" else ret VNone) in
  ret {| la_project := project;
         la_imageAddedRange := imageAddedRange;
         la_lastViewedRange := lastViewedRange;
         la_viewcountRange := viewcountRange;
         la_numAnnoRange := numAnnoRange;
         la_numPredRange := numPredRange;
         la_orderBy := orderBy;
         la_order := order;
         la_limit := limit |}.

(** [list_images] (lines 72-116). [authorised] is the result of
    [self.loginCheck(project=project, admin=True)], [request_json] is
    [request.json]. *)
Definition list_images (authorised : bool) (now request_json : val)
           (project : string) : M (response R) :=
  if negb authorised then raise (HTTPError 401 "forbidden")
  else
    let! a := list_images_args now request_json project in
    let! result := call_listImages a in
    ret (Response result).

(** [remove_images] (lines 180-209). *)
Definition remove_images (authorised : bool) (request_json : val)
           (project : string) : M (response R) :=
  if negb authorised then raise (HTTPError 401 "forbidden")
  else
    try_except
      (let data := request_json in
       let! imageIDs := py_getitem data "images" in
       let! hasForce := py_in "forceRemove" data in
       let! forceRemove := (if hasForce then py_getitem data "forceRemove"
                            else ret (VBool false)) in
       let! hasDisk := py_in "deleteFromDisk" data in
       let! deleteFromDisk := (if hasDisk
                               then py_getitem data "deleteFromDisk"
                               else ret (VBool false)) in
       let! images_deleted := call_removeImages
         {| ra_project := project; ra_imageIDs := imageIDs;
            ra_forceRemove := forceRemove;
            ra_deleteFromDisk := deleteFromDisk |} in
       ret (ImagesDeleted images_deleted))
      (fun e => ret (StatusError e)).

End Handlers.

End DataAdministration.

Import DataAdministration.

(** ** Definitions used in the statements *)

(** The path [p] has the extension that is a dot and [tail]: [p] ends with
    the dot and [tail], [tail] holds neither a dot nor a separator, and
    before the dot the last component of [p] has a character that is not a
    dot. *)
Definition has_dotted_extension (p tail : list ascii) : Prop :=
  ∃ a c b,
    p = a ++ c :: b ++ "."%char :: tail
    ∧ c ≠ "."%char ∧ c ≠ "/"%char ∧ ("/"%char ∉ b)
    ∧ ("."%char ∉ tail) ∧ ("/"%char ∉ tail).

(** [ext] is the extension of the path [p]: a dot and a tail as above, or
    the empty string for a path that has no such ending. *)
Definition extension_of (p ext : string) : Prop :=
  (∃ tail, ext = "." +:+ tail ∧ has_dotted_extension (chars p) (chars tail))
  ∨ (ext = "" ∧ ¬ ∃ tail, has_dotted_extension (chars p) tail).

(** The path with the base directory removed once from the front: its
    first [length imgBaseDir] characters are dropped. *)
Definition without_prefix (imgBaseDir i : string) : string :=
  str (drop (length (chars imgBaseDir)) (chars i)).

(** The copy of an entry after [_parse_range] has filled in the defaults. *)
Definition fill_defaults (minValue maxValue : val) (entry : dict) : dict :=
  let entry := match entry !! "min" with
               | Some _ => entry
               | None => <["min" := minValue]> entry
               end in
  match entry !! "max" with
  | Some _ => entry
  | None => <["max" := maxValue]> entry
  end.

(** The pair [_parse_range] returns for an entry. *)
Definition bounds (minValue maxValue : val) (entry : dict) : val * val :=
  (default minValue (entry !! "min"), default maxValue (entry !! "max")).

(** ** The range query builder *)

Module QueryBuilder.


(** Modelled from the spec: the query plan of [buildQuery] (section 4.5),
    which [middleware.listImages], not part of [app.py], builds: the five
    optional ranges, the column and the direction of the ordering, the
    limit. *)
Record queryPlan := {
  qp_imageAddedRange : option (val * val);
  qp_lastViewedRange : option (val * val);
  qp_viewcountRange : option (val * val);
  qp_numAnnoRange : option (val * val);
  qp_numPredRange : option (val * val);
  qp_orderBy : option string;
  qp_order : option string;
  qp_limit : Z;
}.

(** Modelled from the spec: [orderBy] selects one column of a fixed
    allow-list; an absent [orderBy] leaves the default ordering; any other
    value fails (section 4.5, [middleware.listImages] is not part of
    [app.py]). *)
Definition check_orderBy (sortable_columns : list string) (v : val)
  : option (option string) :=
  match v with
  | VNone => Some None
  | VStr s => if bool_decide (s ∈ sortable_columns) then Some (Some s) else None
  | _ => None
  end.

(** Modelled from the spec: [order] is one of the two directions; an
    unrecognized value fails (section 4.5). *)
Definition check_order (orders : list string) (v : val) : option (option string) :=
  match v with
  | VNone => Some None
  | VStr s => if bool_decide (s ∈ orders) then Some (Some s) else None
  | _ => None
  end.

(** Modelled from the spec: [limit], if present, is a positive integer; if
    absent, the default cap of the server applies (section 4.5). *)
Definition check_limit (default_limit : Z) (v : val) : option Z :=
  match v with
  | VNone => Some default_limit
  | VInt n => if (0 <? n)%Z then Some n else None
  | _ => None
  end.

(** Modelled from the spec: [buildQuery] of section 4.5, the part of
    [middleware.listImages] that validates the ordering and the limit. A
    query exists only as the plan returned; a failure is
    [InvalidParameter] and has no plan. *)
Definition buildQuery (sortable_columns orders : list string) (default_limit : Z)
           (a : listImages_args) : exn + queryPlan :=
  match check_orderBy sortable_columns (la_orderBy a),
        check_order orders (la_order a),
        check_limit default_limit (la_limit a) with
  | Some orderBy, Some order, Some limit =>
      inr {| qp_imageAddedRange := la_imageAddedRange a;
             qp_lastViewedRange := la_lastViewedRange a;
             qp_viewcountRange := la_viewcountRange a;
             qp_numAnnoRange := la_numAnnoRange a;
             qp_numPredRange := la_numPredRange a;
             qp_orderBy := orderBy;
             qp_order := order;
             qp_limit := limit |}
  | _, _, _ => inl (Failure InvalidParameter)
  end.







End QueryBuilder.

Import QueryBuilder.

(** ** Well-formed request bodies *)

(** The entry of a filter name is absent or a dictionary of the store. *)
Definition filter_entry_ok (st : state) (d : dict) (name : string) : bool :=
  match d !! name with
  | None => true
  | Some (VRef e) => match store st !! e with Some _ => true | None => false end
  | Some _ => false
  end.

(** [order] is absent or a string. *)
Definition order_ok (d : dict) : bool :=
  match d !! "order" with
  | None | Some (VStr _) => true
  | Some _ => false
  end.

(** The request body at [p] is the dictionary [d], each of its five filter
    entries is absent or a dictionary, and [order] is absent or a string. *)
Definition well_formed_request (st : state) (p : nat) (d : dict) : Prop :=
  store st !! p = Some d
  ∧ filter_entry_ok st d "imageAddedRange" = true
  ∧ filter_entry_ok st d "lastViewedRange" = true
  ∧ filter_entry_ok st d "viewcountRange" = true
  ∧ filter_entry_ok st d "numAnnoRange" = true
  ∧ filter_entry_ok st d "numPredRange" = true
  ∧ order_ok d = true.

(** The range of a filter name in the body [d]: the bounds of its entry
    with the defaults filled in, or [None] without an entry. *)
Definition range_of (st : state) (d : dict) (name : string) (lo hi : val)
  : option (val * val) :=
  match d !! name with
  | Some (VRef e) => bounds lo hi <$> store st !! e
  | _ => None
  end.

(** The arguments [list_images] passes on for a well-formed body. *)
Definition expected_args (lower : string → string) (now : val) (st : state)
           (d : dict) (project : string) : listImages_args :=
  {| la_project := project;
     la_imageAddedRange := range_of st d "imageAddedRange" datetime_time_min now;
     la_lastViewedRange := range_of st d "lastViewedRange" datetime_time_min now;
     la_viewcountRange := range_of st d "viewcountRange" (VInt 0) float_1e9;
     la_numAnnoRange := range_of st d "numAnnoRange" (VInt 0) float_1e9;
     la_numPredRange := range_of st d "numPredRange" (VInt 0) float_1e9;
     la_orderBy := default VNone (d !! "orderBy");
     la_order := match d !! "order" with
                 | Some (VStr s) => VStr (lower s)
                 | _ => VNone
                 end;
     la_limit := default VNone (d !! "limit") |}.

(** The request body [{"viewcountRange": {"min": 5}, "imageAddedRange":
    {"max": 1600000000}}]. *)
Definition sample_request : state :=
  {| store := [ {[ "viewcountRange" := VRef 1; "imageAddedRange" := VRef 2 ]};
                {[ "min" := VInt 5 ]};
                {[ "max" := VInt 1600000000 ]} ];
     calls := [] |}.

Definition sample_params : dict :=
  {[ "viewcountRange" := VRef 1; "imageAddedRange" := VRef 2 ]}.

(** Two runs of the ingestion of [a.jpg] into an empty table. *)
Definition first_run : run := ingest select_rows refuse_insert {[ "a.jpg" ]} [].
Definition second_run : run :=
  ingest select_rows refuse_insert {[ "a.jpg" ]} (table_after first_run).

(** A base directory [/data/] with the one file [a..jpg]. *)
Definition dotted_fs : filesystem := {|
  listDirectory := fun _ => ["/data/a..jpg"];
  os_path_isdir := fun p => bool_decide (p ∈ ["/data"; "/data/"]);
|}.

(** The request body [{"images": [7, 9]}]. *)
Definition images_only_request : state :=
  {| store := [ {[ "images" := VList [VInt 7; VInt 9] ]} ]; calls := [] |}.

(** The request body [{"orderBy": "DROP TABLE image"}]. *)
Definition drop_table_request : state :=
  {| store := [ {[ "orderBy" := VStr "DROP TABLE image" ]} ]; calls := [] |}.


(** The request body [{"imageAddedRange": {"max": 1600000000}}]. *)
Definition max_only_request : state :=
  {| store := [ {[ "imageAddedRange" := VRef 1 ]}; {[ "max" := VInt 1600000000 ]} ];
     calls := [] |}.

(** The request body [{"lastViewedRange": {}}]. *)
Definition empty_entry_request : state :=
  {| store := [ {[ "lastViewedRange" := VRef 1 ]}; ∅ ]; calls := [] |}.

(** The request body [{"viewcountRange": {"min": 5}}]. *)
Definition min_only_request : state :=
  {| store := [ {[ "viewcountRange" := VRef 1 ]}; {[ "min" := VInt 5 ]} ];
     calls := [] |}.

(** ** The other handlers of [app.py] *)

(** The outcome of a middleware call that is not recorded in [calls]: it
    returns or raises, and leaves the state as it is. *)
Definition middleware_result {A : Type} (r : exn + A) : M A := fun st =>
  match r with
  | inr a => (Ok a, st)
  | inl e => (Raise e, st)
  end.

(** The bodies of the responses of [add_images]. *)
Inductive add_response (S R : Type) :=
| AddResult (status : S) (result : R)   (* [{'status': status, 'response': result}] *)
| AddError (e : exn).                   (* [{'status': 1, 'message': str(e)}] *)
Arguments AddResult {S R} status result.
Arguments AddError {S R} e.

(** The bodies of the responses of [upload_images]. *)
Inductive upload_response (R : Type) :=
| UploadResult (result : R)             (* [{'result': result}] *)
| UploadError (e : exn).                (* [{'status': 1, 'message': str(e)}] *)
Arguments UploadResult {R} result.
Arguments UploadError {R} e.

Section OtherHandlers.

(** The statuses and the results of the middleware. *)
Variable S R : Type.
(** [self.middleware.addExistingImages], which returns a pair of a status
    and a result, [self.middleware.uploadImages] and
    [self.middleware.scanForImages]. *)
Variable mw_addExistingImages : string → val → exn + (S * R).
Variable mw_uploadImages : string → val → exn + R.
Variable mw_scanForImages : string → exn + R.

(** [add_images] (lines 162-175). *)
Definition add_images (authorised : bool) (request_json : val)
           (project : string) : M (add_response S R) :=
  if negb authorised then raise (HTTPError 401 "forbidden")
  else
    try_except
      (let imageNames := request_json in
       let! images := py_getitem imageNames "images" in
       let! status_result := middleware_result (mw_addExistingImages project images) in
       let '(status, result) := status_result in
       ret (AddResult status result))
      (fun e => ret (AddError e)).

(** [upload_images] (lines 121-133); [request_files] is [request.files]. *)
Definition upload_images (authorised : bool) (request_files : val)
           (project : string) : M (upload_response R) :=
  if negb authorised then raise (HTTPError 401 "forbidden")
  else
    try_except
      (let images := request_files in
       let! result := middleware_result (mw_uploadImages project images) in
       ret (UploadResult result))
      (fun e => ret (UploadError e)).

(** [scan_for_images] (lines 147-157). *)
Definition scan_for_images (authorised : bool) (project : string)
  : M (response R) :=
  if negb authorised then raise (HTTPError 401 "forbidden")
  else
    let! result := middleware_result (mw_scanForImages project) in
    ret (Response result).

End OtherHandlers.

(** The state [st'] is the state [st] with at most [n] new objects at the
    end of the store, and the same middleware calls. *)
Definition grows (n : nat) (st st' : state) : Prop :=
  ∃ fresh : list dict,
    store st' = store st ++ fresh
    ∧ (length fresh ≤ n)%nat
    ∧ calls st' = calls st.

(** The names of the five range filters of [list_images]. *)
Definition filter_names : list string :=
  ["imageAddedRange"; "lastViewedRange"; "viewcountRange"; "numAnnoRange";
   "numPredRange"].

(** The request body [{"order": 1}]. *)
Definition numeric_order_request : state :=
  {| store := [ {[ "order" := VInt 1 ]} ]; calls := [] |}.

(** The request body [{"order": "DESC", "limit": 10}]. *)
Definition ordered_request : state :=
  {| store := [ {[ "order" := VStr "DESC"; "limit" := VInt 10 ]} ]; calls := [] |}.

(** The example directory listed in another order, with one path twice. *)
Definition shuffled_fs : filesystem := {|
  listDirectory := fun _ =>
    ["/data/sub/d.png"; "/data/sub"; "/data/a.jpg"; "/data/c.txt";
     "/data/b.JPG"; "/data/a.jpg"];
  os_path_isdir := os_path_isdir example_fs;
|}.

(** A driver whose [SELECT] fails. *)
Definition select_fails (tbl : list string) : option (list string) := None.

(** * Properties of the Python string operations *)

(** Closed decidable statements (equalities of sets, of strings, of lists of
    strings) are settled by evaluating their decision procedure. *)
Ltac by_evaluation := apply (bool_decide_unpack _); vm_compute; exact I.

Example splitext_jpg : os_path_splitext "/data/sub/b.JPG" = ("/data/sub/b", ".JPG").
Proof. reflexivity. Qed.
Example splitext_dotfile : os_path_splitext "/data/.cshrc" = ("/data/.cshrc", "").
Proof. reflexivity. Qed.
Example splitext_dotdot : os_path_splitext "/data/..jpg" = ("/data/..jpg", "").
Proof. reflexivity. Qed.
Example splitext_dir_dot : os_path_splitext "/da.ta/file" = ("/da.ta/file", "").
Proof. reflexivity. Qed.
Example lower_JPG : ascii_lower ".JPG" = ".jpg".
Proof. reflexivity. Qed.
Example replace_all : str_replace "abcabc" "bc" "-" = "a-a-".
Proof. reflexivity. Qed.
Example replace_no_overlap : str_replace "aaa" "aa" "b" = "ba".
Proof. reflexivity. Qed.
Example replace_empty_old : str_replace "abc" "" "-" = "-a-b-c-".
Proof. reflexivity. Qed.

(** [replace] drops a leading occurrence and goes on with the rest of the
    string, where further occurrences are dropped as well. *)
Lemma starts_with_app (p s : list ascii) : PyStr.starts_with p (p ++ s) = true.
Proof. induction p as [|a p IH]; simpl; [done|]. by rewrite Ascii.eqb_refl. Qed.

Lemma replace_from_skip (old new l s : list ascii) :
  PyStr.replace_from old new (length l) (l ++ s) = PyStr.replace_from old new 0 s.
Proof. induction l as [|a l IH]; simpl; [done|]. exact IH. Qed.

Lemma replace_leading (old new s : list ascii) :
  old ≠ [] → PyStr.replace old new (old ++ s) = new ++ PyStr.replace old new s.
Proof.
  destruct old as [|c old]; [done|]. intros _.
  unfold PyStr.replace.
  change ((c :: old) ++ s) with (c :: (old ++ s)).
  cbn [PyStr.replace_from].
  change (c :: (old ++ s)) with ((c :: old) ++ s).
  rewrite starts_with_app. cbn [length Nat.pred].
  by rewrite replace_from_skip.
Qed.

Lemma chars_append (a b : string) : chars (a +:+ b) = chars a ++ chars b.
Proof.
  unfold chars. induction a as [|c a IH]; simpl; [done|]. by rewrite <- IH.
Qed.

Lemma str_chars (s : string) : str (chars s) = s.
Proof. apply string_of_list_ascii_of_string. Qed.

Lemma chars_str (l : list ascii) : chars (str l) = l.
Proof. apply list_ascii_of_string_of_list_ascii. Qed.

Lemma str_app (l1 l2 : list ascii) : str (l1 ++ l2) = str l1 +:+ str l2.
Proof.
  unfold str. induction l1 as [|c l1 IH]; [done|].
  change (String c (string_of_list_ascii (l1 ++ l2))
          = String c (string_of_list_ascii l1 +:+ string_of_list_ascii l2)).
  by f_equal.
Qed.

(** [rfind_from] returns [found] when the character does not occur, and
    otherwise the index of its last occurrence. *)
Lemma rfind_from_spec (c : ascii) (s : list ascii) (i found : Z) :
  (PyStr.rfind_from c s i found = found ∧ c ∉ s)
  ∨ ∃ n : nat,
      PyStr.rfind_from c s i found = i + Z.of_nat n
      ∧ s !! n = Some c
      ∧ c ∉ drop (S n) s.
Proof.
  revert i found. induction s as [|a s IH]; intros i found; simpl.
  - left. split; [done|]. apply not_elem_of_nil.
  - destruct (IH (i + 1) (if Ascii.eqb a c then i else found))
      as [[Hr Hnot]|(n & Hr & Hn & Hafter)].
    + destruct (Ascii.eqb a c) eqn:E.
      * apply Ascii.eqb_eq in E as ->. right. exists 0%nat.
        split; [rewrite Hr; lia|]. by split.
      * apply Ascii.eqb_neq in E. left. split; [done|].
        rewrite not_elem_of_cons. by split.
    + right. exists (S n). split; [rewrite Hr; lia|]. by split.
Qed.

Lemma contains_char (c : ascii) (s : list ascii) :
  c ∉ s → PyStr.contains [c] s = false.
Proof.
  induction s as [|a s IH]; [done|].
  rewrite not_elem_of_cons. intros [Hne Hnot].
  cbn [PyStr.contains PyStr.starts_with].
  destruct (Ascii.eqb c a) eqn:E; [by apply Ascii.eqb_eq in E|].
  by apply IH.
Qed.

Lemma elem_of_drop_inv (c : ascii) (n : nat) (s : list ascii) :
  c ∈ drop n s → c ∈ s.
Proof. intros H. rewrite <- (take_drop n s). apply elem_of_app. by right. Qed.

(** The two parts [splitext] returns, on character lists. *)
Lemma splitext_parts (p : list ascii) :
  let '(root, ext) := PyStr.splitext p in
  root ++ ext = p
  ∧ (ext = [] ∨ ∃ e, ext = ("."%char :: e) ∧ ("."%char ∉ e) ∧ ("/"%char ∉ e)).
Proof.
  unfold PyStr.splitext, PyStr.rfind.
  assert (Hsep_ge : -1 <= PyStr.rfind_from "/" p 0 (-1)).
  { destruct (rfind_from_spec "/" p 0 (-1)) as [[-> _]|(m & -> & _)]; lia. }
  destruct (rfind_from_spec "." p 0 (-1)) as [[Hdot _]|(n & Hdot & Hn & Hafter)];
    rewrite Hdot.
  - rewrite (proj2 (Z.ltb_ge _ _)) by lia. simpl.
    rewrite app_nil_r. split; [done | by left].
  - destruct ((PyStr.rfind_from "/" p 0 (-1) <? 0 + Z.of_nat n)%Z
              && PyStr.has_non_dot p (PyStr.rfind_from "/" p 0 (-1) + 1)
                   (0 + Z.of_nat n)) eqn:E.
    + apply andb_true_iff in E as [Hlt _]. apply Z.ltb_lt in Hlt.
      replace (Z.to_nat (0 + Z.of_nat n)) with n by lia.
      split; [apply take_drop|]. right.
      exists (drop (S n) p). split; [by apply drop_S|]. split; [done|].
      destruct (rfind_from_spec "/" p 0 (-1)) as [[_ Hnone]|(m & Hsep & _ & Hlast)].
      * intros Hin. apply Hnone. by eapply elem_of_drop_inv.
      * rewrite Hsep in Hlt. intros Hin. apply Hlast.
        replace (S n) with (S m + (n - m))%nat in Hin by lia.
        rewrite <- drop_drop in Hin. by eapply elem_of_drop_inv.
    + rewrite app_nil_r. split; [done | by left].
Qed.

(** No occurrence of the character follows the index [rfind] returns. *)
Lemma none_after_rfind (c : ascii) (p : list ascii) :
  c ∉ drop (Z.to_nat (PyStr.rfind c p + 1)) p.
Proof.
  unfold PyStr.rfind.
  destruct (rfind_from_spec c p 0 (-1)) as [[-> Hnot]|(n & -> & _ & Hafter)].
  - done.
  - by replace (Z.to_nat (0 + Z.of_nat n + 1)) with (S n) by lia.
Qed.

Lemma rfind_ge (c : ascii) (p : list ascii) : -1 <= PyStr.rfind c p.
Proof.
  unfold PyStr.rfind.
  destruct (rfind_from_spec c p 0 (-1)) as [[-> _]|(n & -> & _)]; lia.
Qed.

(** [rfind] finds the last occurrence. *)
Lemma rfind_last (c : ascii) (p x tail : list ascii) :
  p = x ++ c :: tail → c ∉ tail → PyStr.rfind c p = Z.of_nat (length x).
Proof.
  intros -> Hnot. unfold PyStr.rfind.
  destruct (rfind_from_spec c (x ++ c :: tail) 0 (-1))
    as [[_ Hnone]|(n & -> & Hn & Hafter)].
  - exfalso. apply Hnone. apply elem_of_app. right. apply list_elem_of_here.
  - destruct (decide (n = length x)) as [->|Hne]; [lia|]. exfalso.
    destruct (decide (n < length x)%nat) as [Hlt|Hge].
    + apply Hafter. rewrite drop_app_le by lia.
      apply elem_of_app. right. apply list_elem_of_here.
    + apply Hnot. rewrite lookup_app_r in Hn by lia.
      destruct (n - length x)%nat as [|k] eqn:Hk; [lia|]. simpl in Hn.
      by eapply list_elem_of_lookup_2.
Qed.

(** The loop over the leading dots, as a statement on the indices. *)
Lemma has_non_dot_true (p : list ascii) (s n : nat) :
  PyStr.has_non_dot p (Z.of_nat s) (Z.of_nat n) = true
  ↔ ∃ j c, (s ≤ j < n)%nat ∧ p !! j = Some c ∧ c ≠ "."%char.
Proof.
  unfold PyStr.has_non_dot.
  replace (Z.to_nat (Z.of_nat n - Z.of_nat s)) with (n - s)%nat by lia.
  rewrite Nat2Z.id, existsb_exists. split.
  - intros (c & Hin & Hc). apply list_elem_of_In, list_elem_of_lookup in Hin as [k Hk].
    apply lookup_take_Some in Hk as [Hk Hlt]. rewrite lookup_drop in Hk.
    exists (s + k)%nat, c. split; [lia|]. split; [done|].
    intros ->. by rewrite Ascii.eqb_refl in Hc.
  - intros (j & c & Hj & Hl & Hc). exists c. split.
    + apply list_elem_of_In, list_elem_of_lookup. exists (j - s)%nat.
      apply lookup_take_Some. split; [|lia].
      rewrite lookup_drop. by replace (s + (j - s))%nat with j by lia.
    + apply negb_true_iff, Ascii.eqb_neq. done.
Qed.

(** [splitext] returns a dotted extension exactly for the paths that have
    one. *)
Lemma splitext_dotted (p tail : list ascii) :
  (PyStr.splitext p).2 = "."%char :: tail ↔ has_dotted_extension p tail.
Proof.
  split.
  - intros Hext. unfold PyStr.splitext in Hext.
    pose proof (rfind_ge "/" p) as Hsep.
    pose proof (none_after_rfind "/" p) as Hnosep.
    pose proof (none_after_rfind "." p) as Hnodot.
    destruct ((PyStr.rfind "/" p <? PyStr.rfind "." p)%Z
              && PyStr.has_non_dot p (PyStr.rfind "/" p + 1) (PyStr.rfind "." p))
      eqn:E; [|discriminate].
    apply andb_true_iff in E as [Hlt Hnon]. apply Z.ltb_lt in Hlt.
    simpl in Hext.
    set (s := Z.to_nat (PyStr.rfind "/" p + 1)) in *.
    set (n := Z.to_nat (PyStr.rfind "." p)) in *.
    replace (PyStr.rfind "/" p + 1) with (Z.of_nat s) in Hnon by lia.
    replace (PyStr.rfind "." p) with (Z.of_nat n) in Hnon by lia.
    replace (Z.to_nat (PyStr.rfind "." p + 1)) with (S n) in Hnodot by lia.
    apply has_non_dot_true in Hnon as (j & c & Hj & Hl & Hc).
    assert (Htail : drop (S n) p = tail).
    { rewrite <- Nat.add_1_r, <- drop_drop, Hext. done. }
    assert (Hmid : drop (S j) p
                   = take (n - S j) (drop (S j) p) ++ "."%char :: tail).
    { rewrite <- (take_drop (n - S j) (drop (S j) p)) at 1. f_equal.
      rewrite drop_drop. by replace (S j + (n - S j))%nat with n by lia. }
    assert (Hafter_s : ∀ k x, (s ≤ k)%nat → x ∈ drop k p → x ≠ "/"%char).
    { intros k x Hk Hin ->. apply Hnosep.
      replace k with (s + (k - s))%nat in Hin by lia.
      rewrite <- drop_drop in Hin. by eapply elem_of_drop_inv. }
    exists (take j p), c, (take (n - S j) (drop (S j) p)).
    split; [|split; [done|]; split; [|split; [|split]]].
    + rewrite <- Hmid. symmetry. by apply take_drop_middle.
    + apply (Hafter_s j); [lia|]. apply (list_elem_of_lookup_2 _ 0%nat).
      rewrite lookup_drop. by rewrite Nat.add_0_r.
    + intros Hin. apply (Hafter_s (S j) "/"%char); [lia| |done].
      rewrite Hmid. apply elem_of_app. by left.
    + by rewrite <- Htail.
    + intros Hin. apply (Hafter_s (S n) "/"%char); [lia| |done]. by rewrite Htail.
  - intros (a & c & b & -> & Hc & Hcs & Hb & Htd & Hts).
    set (p := a ++ c :: b ++ "."%char :: tail).
    assert (Hdot : PyStr.rfind "." p = Z.of_nat (length (a ++ c :: b))).
    { apply (rfind_last "." p (a ++ c :: b) tail); [|done].
      unfold p. by rewrite <- app_assoc. }
    rewrite length_app in Hdot. simpl in Hdot.
    pose proof (rfind_ge "/" p) as Hsep.
    assert (Hlt : PyStr.rfind "/" p < Z.of_nat (length a)).
    { unfold PyStr.rfind.
      destruct (rfind_from_spec "/" p 0 (-1)) as [[-> _]|(m & -> & Hm & _)]; [lia|].
      destruct (decide (m < length a)%nat); [lia|]. exfalso.
      unfold p in Hm. rewrite lookup_app_r in Hm by lia.
      destruct (m - length a)%nat as [|k] eqn:Hk; simpl in Hm; [by injection Hm|].
      rewrite lookup_app in Hm.
      destruct (b !! k) eqn:Hbk.
      - injection Hm as ->. apply Hb. by eapply list_elem_of_lookup_2.
      - destruct (k - length b)%nat; simpl in Hm; [by injection Hm|].
        apply Hts. by eapply list_elem_of_lookup_2. }
    unfold PyStr.splitext. fold p.
    assert (Hcond : (PyStr.rfind "/" p <? PyStr.rfind "." p)%Z
                    && PyStr.has_non_dot p (PyStr.rfind "/" p + 1) (PyStr.rfind "." p)
                    = true).
    { apply andb_true_iff. split; [apply Z.ltb_lt; lia|].
      replace (PyStr.rfind "/" p + 1)
        with (Z.of_nat (Z.to_nat (PyStr.rfind "/" p + 1))) by lia.
      rewrite Hdot.
      apply has_non_dot_true. exists (length a), c.
      split; [lia|]. split; [|done].
      unfold p. by rewrite list_lookup_middle. }
    rewrite Hcond. simpl. rewrite Hdot, Nat2Z.id.
    replace (length a + S (length b))%nat with (length (a ++ c :: b))
      by (rewrite length_app; simpl; lia).
    unfold p.
    replace (a ++ c :: b ++ "."%char :: tail)
      with ((a ++ c :: b) ++ "."%char :: tail) by (by rewrite <- app_assoc).
    by rewrite drop_app_length.
Qed.

(** The extension [splitext] returns is the extension of the path. *)
Lemma extension_of_splitext (p ext : string) :
  extension_of p ext ↔ (os_path_splitext p).2 = ext.
Proof.
  unfold extension_of, os_path_splitext.
  pose proof (splitext_parts (chars p)) as Hparts.
  pose proof (splitext_dotted (chars p)) as Hdotted.
  destruct (PyStr.splitext (chars p)) as [root e]. simpl in *.
  destruct Hparts as [_ Hshape]. split.
  - intros [(tail & -> & Htail)|[-> Hnone]].
    + apply Hdotted in Htail. rewrite Htail. simpl. by rewrite str_chars.
    + destruct Hshape as [->|(t & -> & _)]; [done|].
      exfalso. apply Hnone. exists t. by apply Hdotted.
  - intros <-. destruct Hshape as [->|(t & -> & _)].
    + right. split; [done|]. intros (t & Ht). by apply Hdotted in Ht.
    + left. exists (str t). split; [done|].
      rewrite chars_str. by apply Hdotted.
Qed.

(** * Properties of the import script *)

(** A path below the base directory and the rest of that path get the same
    key: [baseName] goes on replacing after the prefix. *)
Lemma baseName_leading (imgBaseDir rest : string) :
  imgBaseDir ≠ "" →
  baseName imgBaseDir (imgBaseDir +:+ rest) = baseName imgBaseDir rest.
Proof.
  intros Hne. unfold baseName, str_replace.
  rewrite chars_append, replace_leading; [done|].
  destruct imgBaseDir; [done|discriminate].
Qed.

(** The script on the example directory, with [a.jpg] registered before. *)
Example main_example :
  ∃ r, main ascii_lower example_fs [".jpg"; ".png"] select_rows refuse_insert "/data" ["a.jpg"] = Some r
       ∧ inserted r ≡ₚ ["b.JPG"; "sub/d.png"]
       ∧ table_after r ≡ₚ ["a.jpg"; "b.JPG"; "sub/d.png"].
Proof. eexists. split; [reflexivity|]. split; by_evaluation. Qed.

Example ex_scan :
  locate ascii_lower example_fs [".jpg"; ".png"] "/data/" = {[ "a.jpg"; "b.JPG"; "sub/d.png" ]}.
Proof. by_evaluation. Qed.
Example ex_nested :
  elements (locate ascii_lower nested_fs [".jpg"; ".png"] "/data/") = ["tripa.jpg"].
Proof. vm_compute. reflexivity. Qed.
Example ex_ingest_skip :
  inserted (ingest select_rows refuse_insert {[ "a.jpg"; "b.jpg" ]} ["b.jpg"]) = ["a.jpg"].
Proof. vm_compute. reflexivity. Qed.

Section ScanFacts.

Variable lower : string → string.
Variable fs : filesystem.
Variable VALID_IMAGE_EXTENSIONS : list string.

(** The loop adds the base name of every path that passes the two tests,
    and nothing else. *)
Lemma elem_of_fold_locate_step (imgBaseDir : string) (imgFiles : list string)
      (acc : gset string) (b : string) :
  b ∈ fold_left (locate_step lower fs VALID_IMAGE_EXTENSIONS imgBaseDir) imgFiles acc
  ↔ b ∈ acc
    ∨ ∃ i, i ∈ imgFiles
           ∧ is_image_file lower fs VALID_IMAGE_EXTENSIONS i = true
           ∧ b = baseName imgBaseDir i.
Proof.
  revert acc. induction imgFiles as [|i rest IH]; intros acc; simpl.
  - split; [auto|]. intros [H|(i & Hi & _)]; [done|]. by apply elem_of_nil in Hi.
  - rewrite IH. unfold locate_step.
    destruct (is_image_file lower fs VALID_IMAGE_EXTENSIONS i) eqn:Hsel.
    + rewrite elem_of_union, elem_of_singleton. split.
      * intros [[H|H]|(j & Hj & Hs & Hb)]; [by left| |].
        -- right. exists i. split; [apply list_elem_of_here | done].
        -- right. exists j. split; [by apply list_elem_of_further | done].
      * intros [H|(j & Hj & Hs & Hb)]; [by left; left|].
        apply elem_of_cons in Hj as [->|Hj]; [by left; right|].
        right. by exists j.
    + split.
      * intros [H|(j & Hj & Hs & Hb)]; [by left|].
        right. exists j. split; [by apply list_elem_of_further | done].
      * intros [H|(j & Hj & Hs & Hb)]; [by left|].
        apply elem_of_cons in Hj as [->|Hj]; [congruence|].
        right. by exists j.
Qed.

(** The two tests of the loop body. *)
Lemma is_image_file_spec (i : string) :
  is_image_file lower fs VALID_IMAGE_EXTENSIONS i = true
  ↔ os_path_isdir fs i = false
    ∧ lower (os_path_splitext i).2 ∈ VALID_IMAGE_EXTENSIONS.
Proof.
  unfold is_image_file.
  destruct (os_path_isdir fs i); [split; [done | by intros [? _]]|].
  destruct (os_path_splitext i) as [root ext]; simpl.
  destruct (bool_decide (lower ext ∈ VALID_IMAGE_EXTENSIONS)) eqn:Hin; simpl.
  - apply bool_decide_eq_true in Hin. by split.
  - apply bool_decide_eq_false in Hin. split; [done|]. by intros [_ ?].
Qed.

(** The keys of the scan. *)
Lemma elem_of_locate (imgBaseDir b : string) :
  b ∈ locate lower fs VALID_IMAGE_EXTENSIONS imgBaseDir
  ↔ ∃ i, i ∈ listDirectory fs imgBaseDir
         ∧ os_path_isdir fs i = false
         ∧ lower (os_path_splitext i).2 ∈ VALID_IMAGE_EXTENSIONS
         ∧ b = baseName imgBaseDir i.
Proof.
  unfold locate. rewrite elem_of_fold_locate_step. split.
  - intros [H|(i & Hi & Hsel & Hb)]; [by apply not_elem_of_empty in H|].
    apply is_image_file_spec in Hsel as [Hdir Hext]. by exists i.
  - intros (i & Hi & Hdir & Hext & Hb). right. exists i.
    split; [done|]. split; [|done]. by apply is_image_file_spec.
Qed.

End ScanFacts.

(** Two lowerings that agree on the extensions of the listed paths give
    the same scan. *)
Lemma locate_lower_ext (lower lower' : string → string) (fs : filesystem)
      (valid : list string) (imgBaseDir : string) :
  (∀ i, i ∈ listDirectory fs imgBaseDir →
        lower (os_path_splitext i).2 = lower' (os_path_splitext i).2) →
  locate lower fs valid imgBaseDir = locate lower' fs valid imgBaseDir.
Proof.
  intros Hagree. apply set_eq. intros b. rewrite !elem_of_locate.
  split; intros (i & Hi & Hdir & Hext & Hb); exists i;
    (split; [done|]); (split; [done|]); (split; [|done]).
  - by rewrite <- Hagree.
  - by rewrite Hagree.
Qed.

(** On the example directory, whose names are ASCII, the scan is the scan
    with the ASCII case table. *)
Lemma locate_example_fs (lower : string → string) (valid : list string) :
  lower_on_ascii lower →
  locate lower example_fs valid "/data/" = locate ascii_lower example_fs valid "/data/".
Proof.
  intros Hascii. apply locate_lower_ext. intros i Hi. simpl in Hi.
  repeat (apply elem_of_cons in Hi as [->|Hi]; [by apply Hascii|]).
  by apply elem_of_nil in Hi.
Qed.

Lemma locate_nested_fs (lower : string → string) (valid : list string) :
  lower_on_ascii lower →
  locate lower nested_fs valid "/data/" = locate ascii_lower nested_fs valid "/data/".
Proof.
  intros Hascii. apply locate_lower_ext. intros i Hi. simpl in Hi.
  repeat (apply elem_of_cons in Hi as [->|Hi]; [by apply Hascii|]).
  by apply elem_of_nil in Hi.
Qed.

(** C6, as the script has it. The scan selects exactly the paths of the
    listing that are not directories and whose extension, after
    [str.lower()], is in the allow-list of valid extensions. This compares
    without regard to case when [str.lower()] leaves every entry of the
    allow-list as it is. The scan of the directory with [a.jpg], [b.JPG],
    [c.txt] and [sub/d.png] with allow-list [.jpg], [.png] yields exactly
    [a.jpg], [b.JPG] and [sub/d.png]. *)
Theorem scan_selects_by_extension (lower : string → string) (fs : filesystem)
        (valid : list string) (imgBaseDir : string) :
  (∀ b, b ∈ locate lower fs valid imgBaseDir
        ↔ ∃ i ext, i ∈ listDirectory fs imgBaseDir
                   ∧ os_path_isdir fs i = false
                   ∧ extension_of i ext
                   ∧ lower ext ∈ valid
                   ∧ b = baseName imgBaseDir i)
  ∧ ((∀ v, v ∈ valid → lower v = v) →
     ∀ b, b ∈ locate lower fs valid imgBaseDir
          ↔ ∃ i ext, i ∈ listDirectory fs imgBaseDir
                     ∧ os_path_isdir fs i = false
                     ∧ extension_of i ext
                     ∧ (∃ v, v ∈ valid ∧ lower ext = lower v)
                     ∧ b = baseName imgBaseDir i)
  ∧ (lower_on_ascii lower →
     locate lower example_fs [".jpg"; ".png"] "/data/"
     = {[ "a.jpg"; "b.JPG"; "sub/d.png" ]}).
Proof.
  assert (Hkeys : ∀ b, b ∈ locate lower fs valid imgBaseDir
        ↔ ∃ i ext, i ∈ listDirectory fs imgBaseDir
                   ∧ os_path_isdir fs i = false
                   ∧ extension_of i ext
                   ∧ lower ext ∈ valid
                   ∧ b = baseName imgBaseDir i).
  { intros b. rewrite elem_of_locate. split.
    - intros (i & Hi & Hdir & Hext & Hb).
      exists i, (os_path_splitext i).2. by rewrite extension_of_splitext.
    - intros (i & ext & Hi & Hdir & Hof & Hext & Hb).
      apply extension_of_splitext in Hof as <-. by exists i. }
  split; [exact Hkeys|]. split.
  - intros Hlow b. rewrite Hkeys. split.
    + intros (i & ext & Hi & Hdir & Hof & Hext & Hb). exists i, ext.
      repeat (split; [done|]). split; [|done].
      exists (lower ext). split; [done|]. by rewrite (Hlow _ Hext).
    + intros (i & ext & Hi & Hdir & Hof & (v & Hv & Heq) & Hb). exists i, ext.
      repeat (split; [done|]). split; [|done]. by rewrite Heq, (Hlow _ Hv).
  - intros Hascii. rewrite locate_example_fs by done. by_evaluation.
Qed.

Lemma ascii_lower_on_ascii : lower_on_ascii ascii_lower.
Proof. by intros s _. Qed.

Lemma scan_selects_by_extension_witness :
  lower_on_ascii ascii_lower
  ∧ (∀ v, v ∈ [".jpg"; ".png"] → ascii_lower v = v)
  ∧ locate ascii_lower example_fs [".jpg"; ".png"] "/data/"
    = {[ "a.jpg"; "b.JPG"; "sub/d.png" ]}
  ∧ ("b.JPG" ∈ locate ascii_lower example_fs [".jpg"; ".png"] "/data/"
     ↔ ∃ i ext, i ∈ listDirectory example_fs "/data/"
                ∧ os_path_isdir example_fs i = false
                ∧ extension_of i ext
                ∧ (∃ v, v ∈ [".jpg"; ".png"] ∧ ascii_lower ext = ascii_lower v)
                ∧ "b.JPG" = baseName "/data/" i).
Proof.
  assert (H : ∀ v, v ∈ [".jpg"; ".png"] → ascii_lower v = v).
  { intros v Hv. apply elem_of_cons in Hv as [->|Hv]; [reflexivity|].
    apply elem_of_cons in Hv as [->|Hv]; [reflexivity|].
    by apply elem_of_nil in Hv. }
  split; [exact ascii_lower_on_ascii|]. split; [exact H|].
  pose proof (scan_selects_by_extension ascii_lower example_fs [".jpg"; ".png"]
                "/data/") as (_ & Hci & Hex).
  split; [exact (Hex ascii_lower_on_ascii) | exact (Hci H "b.JPG")].
Defined.

(** C6 as stated fails: with the allow-list [.JPG] the file [b.JPG], whose
    extension is in the allow-list as it stands, is not selected. The
    extension is lowered before the comparison and the entries of the
    allow-list are not. *)
Lemma upper_case_entry_selects_nothing :
  "/data/b.JPG" ∈ listDirectory example_fs "/data/"
  ∧ os_path_isdir example_fs "/data/b.JPG" = false
  ∧ (os_path_splitext "/data/b.JPG").2 = ".JPG"
  ∧ ".JPG" ∈ [".JPG"]
  ∧ locate ascii_lower example_fs [".JPG"] "/data/" = ∅.
Proof. repeat split; by_evaluation. Qed.

(** C7. [baseName] removes every occurrence of the base directory, not only
    the leading one: below the base directory [/data/], the file
    [/data/trip/data/a.jpg] gets the key [tripa.jpg], where removing the
    prefix once gives [trip/data/a.jpg]. *)
Theorem baseName_removes_every_occurrence :
  str_startswith "/data/trip/data/a.jpg" "/data/" = true
  ∧ without_prefix "/data/" "/data/trip/data/a.jpg" = "trip/data/a.jpg"
  ∧ baseName "/data/" "/data/trip/data/a.jpg" = "tripa.jpg"
  ∧ (∀ lower, lower_on_ascii lower →
                locate lower nested_fs [".jpg"; ".png"] "/data/" = {[ "tripa.jpg" ]})
  ∧ baseName "/data/" "/data/trip/data/a.jpg"
    ≠ without_prefix "/data/" "/data/trip/data/a.jpg".
Proof.
  split; [by_evaluation|]. split; [by_evaluation|]. split; [by_evaluation|].
  split; [|by_evaluation].
  intros lower Hascii. rewrite locate_nested_fs by done. by_evaluation.
Qed.

Lemma baseName_removes_every_occurrence_witness :
  lower_on_ascii ascii_lower
  ∧ locate ascii_lower nested_fs [".jpg"; ".png"] "/data/" = {[ "tripa.jpg" ]}.
Proof.
  split; [exact ascii_lower_on_ascii|].
  exact (proj1 (proj2 (proj2 (proj2 baseName_removes_every_occurrence)))
           ascii_lower ascii_lower_on_ascii).
Defined.

(** C8. The inventory diff: [diskOnly = D - B], [dbOnly = B - D], the two
    are disjoint, and with the common keys they make up [D ∪ B]. *)
Theorem diff_partition (D B : gset string) :
  let '(diskOnly, dbOnly) := diff D B in
  diskOnly = D ∖ B
  ∧ dbOnly = B ∖ D
  ∧ diskOnly ∩ dbOnly = ∅
  ∧ diskOnly ∪ dbOnly ∪ (D ∩ B) = D ∪ B.
Proof.
  unfold diff, difference. split; [done|]. split; [done|]. split.
  - apply set_eq. intros x.
    rewrite elem_of_intersection, !elem_of_difference.
    split; [tauto|]. intros H. by apply not_elem_of_empty in H.
  - apply set_eq. intros x.
    rewrite !elem_of_union, elem_of_intersection, !elem_of_difference.
    destruct (decide (x ∈ D)), (decide (x ∈ B)); tauto.
Qed.

(** ** Ingestion *)

Section IngestFacts.

Variable execute_select : list string → option (list string).
Variable insert_conflict : list string → list string → insert_outcome.

(** With a [SELECT] that returns the rows of the table, the rows inserted
    are the candidates that the table does not hold. *)
Lemma inserted_honest (imgs : gset string) (tbl : list string) :
  execute_select tbl = Some tbl →
  inserted (ingest execute_select insert_conflict imgs tbl)
  = elements (imgs ∖ list_to_set tbl).
Proof. intros H. unfold ingest, difference. simpl. by rewrite H. Qed.

(** The candidates that are left after the filter are new rows. *)
Lemma all_new_after_filter (imgs : gset string) (tbl : list string) :
  all_new tbl (elements (imgs ∖ list_to_set tbl)) = true.
Proof.
  unfold all_new. apply andb_true_iff. split.
  - apply forallb_forall. intros f Hf.
    apply list_elem_of_In, elem_of_elements, elem_of_difference in Hf as [_ Hf].
    apply negb_true_iff, bool_decide_eq_false.
    by rewrite elem_of_list_to_set in Hf.
  - apply bool_decide_eq_true, NoDup_elements.
Qed.

(** With such a [SELECT] the insert appends the rows and does not raise. *)
Lemma insert_after_select (imgs : gset string) (tbl : list string) :
  execute_select tbl = Some tbl →
  db_insert insert_conflict tbl (inserted (ingest execute_select insert_conflict imgs tbl))
  = {| table_left := tbl ++ inserted (ingest execute_select insert_conflict imgs tbl);
       insert_raised := false |}.
Proof.
  intros H. rewrite inserted_honest by done. unfold db_insert.
  by rewrite all_new_after_filter.
Qed.

Lemma table_after_ingest (imgs : gset string) (tbl : list string) :
  execute_select tbl = Some tbl →
  table_after (ingest execute_select insert_conflict imgs tbl)
  = tbl ++ inserted (ingest execute_select insert_conflict imgs tbl).
Proof.
  intros H. pose proof (insert_after_select imgs tbl H) as Hins.
  unfold ingest in *. simpl in *. by rewrite Hins.
Qed.

(** The printed lines do not depend on the candidates or on the table. *)
Lemma printed_constant (imgs : gset string) (tbl : list string) :
  execute_select tbl = Some tbl →
  printed (ingest execute_select insert_conflict imgs tbl)
  = ["Filter images already in database..."; "Adding to database..."; "Done."].
Proof.
  intros H. pose proof (insert_after_select imgs tbl H) as Hins.
  unfold ingest in *. simpl in *. by rewrite Hins.
Qed.

Lemma elem_of_inserted (imgs : gset string) (tbl : list string) (f : string) :
  execute_select tbl = Some tbl →
  f ∈ inserted (ingest execute_select insert_conflict imgs tbl) ↔ f ∈ imgs ∧ f ∉ tbl.
Proof.
  intros H. rewrite inserted_honest by done.
  rewrite elem_of_elements, elem_of_difference, elem_of_list_to_set. done.
Qed.

(** A second ingestion of the same candidates finds them all registered. *)
Lemma nothing_left_to_insert (imgs : gset string) (tbl : list string) :
  imgs ∖ list_to_set (tbl ++ elements (imgs ∖ list_to_set tbl)) = (∅ : gset string).
Proof.
  apply set_eq. intros f.
  rewrite elem_of_difference, elem_of_list_to_set, elem_of_app,
    elem_of_elements, elem_of_difference, elem_of_list_to_set.
  split; [|intros H; by apply not_elem_of_empty in H].
  intros [Hin Hnot]. exfalso. apply Hnot.
  destruct (decide (f ∈ tbl)); [by left | by right].
Qed.

Lemma NoDup_table_after (imgs : gset string) (tbl : list string) :
  execute_select tbl = Some tbl →
  NoDup tbl →
  NoDup (table_after (ingest execute_select insert_conflict imgs tbl)).
Proof.
  intros Hsel Hnd. rewrite table_after_ingest, inserted_honest by done.
  apply NoDup_app. split; [done|]. split; [|apply NoDup_elements].
  intros f Hf. rewrite elem_of_elements, elem_of_difference, elem_of_list_to_set.
  tauto.
Qed.

End IngestFacts.

(** C1, as the script has it. For a table whose file names are unique and a
    [SELECT] that returns its rows: ingestion filters the candidates against
    the table as it is when the step runs; no inserted file name is already
    in the table; the file names stay unique; a second ingestion of the same
    candidates inserts nothing and leaves the table as it is, so every
    candidate has exactly one row; and the second run prints the same three
    progress lines as the first. This holds whatever the storage layer does
    with a row that is not new, since no such row reaches it. *)
Theorem ingest_twice_one_record
        (execute_select : list string → option (list string))
        (insert_conflict : list string → list string → insert_outcome)
        (imgs : gset string) (tbl : list string)
        (Hselect : ∀ t, execute_select t = Some t)
        (Hunique : NoDup tbl) :
  let r1 := ingest execute_select insert_conflict imgs tbl in
  let r2 := ingest execute_select insert_conflict imgs (table_after r1) in
  inserted r1 = elements (imgs ∖ list_to_set tbl)
  ∧ (∀ f, f ∈ inserted r1 → f ∉ tbl)
  ∧ NoDup (table_after r1)
  ∧ inserted r2 = []
  ∧ table_after r2 = table_after r1
  ∧ (∀ f, f ∈ imgs → count_occ string_dec (table_after r2) f = 1%nat)
  ∧ printed r2 = printed r1.
Proof.
  intros r1 r2.
  assert (Hins1 : inserted r1 = elements (imgs ∖ list_to_set tbl))
    by (by apply inserted_honest).
  assert (Hins2 : inserted r2 = []).
  { unfold r2. rewrite inserted_honest by done.
    unfold r1. rewrite table_after_ingest, inserted_honest by done.
    rewrite nothing_left_to_insert. apply elements_empty. }
  assert (Htbl2 : table_after r2 = table_after r1).
  { unfold r2. rewrite table_after_ingest by done. fold r2. rewrite Hins2.
    apply app_nil_r. }
  assert (Hnd : NoDup (table_after r1)) by (by apply NoDup_table_after).
  split; [done|]. split.
  { intros f Hf.
    by apply (elem_of_inserted execute_select insert_conflict imgs tbl f) in Hf as [_ ?]. }
  split; [done|]. split; [done|]. split; [done|]. split.
  - intros f Hf. rewrite Htbl2.
    apply NoDup_count_occ'; [by apply NoDup_ListNoDup|].
    apply list_elem_of_In. unfold r1.
    rewrite table_after_ingest, elem_of_app, elem_of_inserted by done.
    destruct (decide (f ∈ tbl)); [by left | by right].
  - unfold r2, r1. by rewrite !printed_constant.
Qed.

Lemma ingest_twice_one_record_witness :
  (∀ t, select_rows t = Some t)
  ∧ NoDup ["b.jpg"]
  ∧ count_occ string_dec
      (table_after (ingest select_rows refuse_insert {[ "a.jpg" ]}
         (table_after (ingest select_rows refuse_insert {[ "a.jpg" ]} ["b.jpg"])))) "a.jpg"
    = 1%nat.
Proof.
  assert (Hsel : ∀ t, select_rows t = Some t) by reflexivity.
  assert (Hnd : NoDup ["b.jpg"]).
  { apply NoDup_cons. split; [apply not_elem_of_nil | apply NoDup_nil_2]. }
  split; [exact Hsel|]. split; [exact Hnd|].
  apply (ingest_twice_one_record select_rows refuse_insert {[ "a.jpg" ]} ["b.jpg"]
           Hsel Hnd).
  apply elem_of_singleton. reflexivity.
Defined.

(** C1 as stated fails: the second ingestion of [a.jpg] reports nothing.
    Its output is the output of the first, accepting, run, and no line of
    it names the file. *)
Lemma second_ingest_reports_nothing :
  inserted first_run = ["a.jpg"]
  ∧ inserted second_run = []
  ∧ printed second_run = printed first_run
  ∧ ¬ (∃ line, line ∈ printed second_run ∧ str_contains "a.jpg" line = true).
Proof.
  split; [by_evaluation|]. split; [by_evaluation|]. split; [by_evaluation|].
  intros (line & Hline & Hnamed). unfold second_run in Hline.
  rewrite printed_constant in Hline by reflexivity.
  repeat (apply elem_of_cons in Hline as [->|Hline]; [discriminate|]).
  by apply elem_of_nil in Hline.
Qed.

(** The script registers the keys of its scan that the table does not
    hold. *)
Lemma main_inserted (lower : string → string) (fs : filesystem)
      (valid : list string)
      (execute_select : list string → option (list string))
      (insert_conflict : list string → list string → insert_outcome)
      (staticfiles_dir : string) (tbl : list string) :
  execute_select tbl = Some tbl →
  os_path_isdir fs staticfiles_dir = true →
  ∃ r, main lower fs valid execute_select insert_conflict staticfiles_dir tbl = Some r
       ∧ table_after r = tbl ++ inserted r
       ∧ ∀ f, f ∈ inserted r
              ↔ f ∈ locate lower fs valid (with_trailing_sep staticfiles_dir) ∧ f ∉ tbl.
Proof.
  intros Hselect Hdir. unfold main. rewrite Hdir. simpl.
  eexists. split; [reflexivity|]. cbn [table_after inserted].
  split; [by apply (table_after_ingest execute_select insert_conflict)|].
  intros f. by apply (elem_of_inserted execute_select insert_conflict).
Qed.

(** C2 as stated fails: the script has no validation of file names. The
    file [a..jpg], whose name holds the sequence [..], is found by the scan
    and inserted. *)
Lemma scanned_dotted_name_is_inserted :
  invalid_name "a..jpg" = true
  ∧ ∃ r, main ascii_lower dotted_fs [".jpg"; ".png"] select_rows refuse_insert "/data" []
         = Some r
         ∧ inserted r = ["a..jpg"]
         ∧ table_after r = ["a..jpg"]
         ∧ printed r = ["Locating image paths..."; "Filter images already in database...";
                        "Adding to database..."; "Done."].
Proof.
  split; [reflexivity|]. eexists. split; [reflexivity|].
  repeat split; by_evaluation.
Qed.

(** C2, as the script has it. With a [SELECT] that returns the rows of the
    table, a candidate is inserted exactly when the table does not hold it,
    whatever its form: the ingestion step does so for every set of
    candidates, and the script for the keys of its scan, so that a key that
    is empty, absolute or holds [..] is inserted like any other. *)
Theorem ingest_inserts_every_unregistered_name
        (lower : string → string) (fs : filesystem) (valid : list string)
        (execute_select : list string → option (list string))
        (insert_conflict : list string → list string → insert_outcome)
        (staticfiles_dir : string) (tbl : list string)
        (Hselect : execute_select tbl = Some tbl)
        (Hdir : os_path_isdir fs staticfiles_dir = true) :
  (∀ imgs f, f ∈ inserted (ingest execute_select insert_conflict imgs tbl)
             ↔ f ∈ imgs ∧ f ∉ tbl)
  ∧ ∃ r, main lower fs valid execute_select insert_conflict staticfiles_dir tbl = Some r
         ∧ (∀ f, f ∈ inserted r
                 ↔ f ∈ locate lower fs valid (with_trailing_sep staticfiles_dir)
                   ∧ f ∉ tbl)
         ∧ (∀ f, f ∈ locate lower fs valid (with_trailing_sep staticfiles_dir) →
                 f ∉ tbl → invalid_name f = true → f ∈ table_after r).
Proof.
  split; [intros imgs f; by apply elem_of_inserted|].
  destruct (main_inserted lower fs valid execute_select insert_conflict
              staticfiles_dir tbl Hselect Hdir) as (r & Hr & Htbl & Hins).
  exists r. split; [done|]. split; [done|].
  intros f Hf Hnot _. rewrite Htbl, elem_of_app. right. by apply Hins.
Qed.

Lemma ingest_inserts_every_unregistered_name_witness :
  select_rows ["b.jpg"] = Some ["b.jpg"]
  ∧ os_path_isdir dotted_fs "/data" = true
  ∧ ∃ r, main ascii_lower dotted_fs [".jpg"; ".png"] select_rows refuse_insert "/data"
              ["b.jpg"] = Some r
         ∧ (∀ f, f ∈ inserted r
                 ↔ f ∈ locate ascii_lower dotted_fs [".jpg"; ".png"]
                         (with_trailing_sep "/data")
                   ∧ f ∉ ["b.jpg"])
         ∧ (∀ f, f ∈ locate ascii_lower dotted_fs [".jpg"; ".png"]
                         (with_trailing_sep "/data") →
                 f ∉ ["b.jpg"] → invalid_name f = true → f ∈ table_after r).
Proof.
  split; [reflexivity|]. split; [reflexivity|].
  exact (proj2 (ingest_inserts_every_unregistered_name ascii_lower dotted_fs
                  [".jpg"; ".png"] select_rows refuse_insert "/data" ["b.jpg"]
                  eq_refl eq_refl)).
Defined.

(** * Properties of the request handlers *)

(** ** The store *)

Lemma lookup_fresh (h : heap) (d : dict) : (h ++ [d]) !! length h = Some d.
Proof. by apply list_lookup_middle. Qed.

Lemma insert_fresh (h : heap) (d d' : dict) :
  <[length h := d']> (h ++ [d]) = h ++ [d'].
Proof. rewrite insert_app_r_alt by lia. by rewrite Nat.sub_diag. Qed.

Ltac unfold_ops :=
  unfold _parse_range, py_in, py_getitem, py_copy, py_setitem, py_lower,
    deref, bind, ret, raise; simpl.

(** [_parse_range] on a dictionary that has no entry of the name. *)
Lemma parse_range_absent (st : state) (p : nat) (d : dict) (name : string)
      (lo hi : val) :
  store st !! p = Some d →
  d !! name = None →
  _parse_range (VRef p) name lo hi st = (Ok None, st).
Proof. intros Hp Hn. unfold_ops. rewrite Hp. simpl. by rewrite Hn. Qed.

(** [_parse_range] on a dictionary whose entry of the name is a dictionary:
    the pair of bounds, and one new object in the store. *)
Lemma parse_range_entry (st : state) (p e : nat) (d ent : dict)
      (name : string) (lo hi : val) :
  store st !! p = Some d →
  d !! name = Some (VRef e) →
  store st !! e = Some ent →
  _parse_range (VRef p) name lo hi st
  = (Ok (Some (bounds lo hi ent)),
     {| store := store st ++ [fill_defaults lo hi ent]; calls := calls st |}).
Proof.
  intros Hp Hn He. unfold_ops. rewrite Hp. simpl. rewrite Hn. simpl.
  rewrite Hp. simpl. rewrite Hn. simpl. rewrite He. simpl.
  unfold bounds, fill_defaults.
  destruct (ent !! "min") as [vmin|] eqn:Hmin;
    destruct (ent !! "max") as [vmax|] eqn:Hmax; simpl;
    repeat first
      [ rewrite lookup_fresh
      | rewrite insert_fresh
      | rewrite Hmin
      | rewrite Hmax
      | rewrite lookup_insert_eq
      | rewrite lookup_insert_ne by done
      | progress simpl ];
    reflexivity.
Qed.

(** Whatever its arguments, [_parse_range] only adds to the store. *)
Lemma parse_range_store (params : val) (paramName : string)
      (minValue maxValue : val) (st : state) :
  ∃ fresh : list dict,
    store (_parse_range params paramName minValue maxValue st).2
    = store st ++ fresh
    ∧ (length fresh ≤ 1)%nat
    ∧ calls (_parse_range params paramName minValue maxValue st).2 = calls st.
Proof.
  unfold_ops.
  destruct params; simpl;
    repeat match goal with
      | |- context [match ?x with _ => _ end] =>
          lazymatch x with
          | context [match _ with _ => _ end] => fail
          | _ => destruct x eqn:?; simpl
          end
      end;
    rewrite ?insert_fresh;
    first [ exists []; rewrite app_nil_r; simpl; split; [reflexivity|split; [lia|reflexivity]]
          | eexists [_]; simpl; split; [reflexivity|split; [lia|reflexivity]] ].
Qed.

(** C10. [_parse_range] changes no object of the caller's store: whatever
    the arguments and whether it returns or raises, the store afterwards is
    the store before followed by at most one new object (the copy of the
    entry), and no middleware call is made. *)
Theorem parse_range_leaves_params_unchanged
        (params : val) (paramName : string) (minValue maxValue : val)
        (st : state) :
  ∃ fresh : list dict,
    store (_parse_range params paramName minValue maxValue st).2
    = store st ++ fresh
    ∧ (length fresh ≤ 1)%nat
    ∧ calls (_parse_range params paramName minValue maxValue st).2 = calls st.
Proof. apply parse_range_store. Qed.

(** Before and after on a request body: the parameter dictionary and the
    entry are where they were. *)
Example parse_range_aliasing :
  let st := {| store := [ {[ "viewcountRange" := VRef 1 ]}; {[ "min" := VInt 5 ]} ];
               calls := [] |} in
  _parse_range (VRef 0) "viewcountRange" (VInt 0) float_1e9 st
  = (Ok (Some (VInt 5, float_1e9)),
     {| store := [ {[ "viewcountRange" := VRef 1 ]}; {[ "min" := VInt 5 ]};
                   <["max" := float_1e9]> {[ "min" := VInt 5 ]} ];
        calls := [] |}).
Proof. reflexivity. Qed.

Lemma parse_range_ok (st0 st : state) (p : nat) (d : dict) (name : string)
      (lo hi : val) :
  store st0 `prefix_of` store st →
  store st !! p = Some d →
  filter_entry_ok st0 d name = true →
  ∃ st', _parse_range (VRef p) name lo hi st
         = (Ok (range_of st0 d name lo hi), st')
         ∧ store st0 `prefix_of` store st'
         ∧ store st' !! p = Some d
         ∧ calls st' = calls st.
Proof.
  intros Hpre Hp Hok. unfold filter_entry_ok, range_of in *.
  destruct (d !! name) as [v|] eqn:Hn.
  - destruct v; try discriminate.
    destruct (store st0 !! l) as [ent|] eqn:He; [|discriminate].
    assert (He' : store st !! l = Some ent) by (by eapply prefix_lookup_Some).
    eexists. split; [by apply (parse_range_entry st p l d ent)|]. simpl.
    split; [|split; [|done]].
    + etrans; [exact Hpre|]. by apply prefix_app_r.
    + by apply lookup_app_l_Some.
  - exists st. split; [by apply (parse_range_absent st p d)|]. done.
Qed.

(** The parsing phase of [list_images] on a well-formed body. *)
Lemma list_images_args_ok (lower : string → string) (now : val)
      (project : string) (st : state) (p : nat) (d : dict) :
  well_formed_request st p d →
  ∃ st', list_images_args lower now (VRef p) project st
         = (Ok (expected_args lower now st d project), st')
         ∧ calls st' = calls st.
Proof.
  intros (Hp & H1 & H2 & H3 & H4 & H5 & Ho).
  unfold list_images_args.
  destruct (parse_range_ok st st p d "imageAddedRange" datetime_time_min now)
    as (st1 & E1 & P1 & L1 & C1); [done..|].
  destruct (parse_range_ok st st1 p d "lastViewedRange" datetime_time_min now)
    as (st2 & E2 & P2 & L2 & C2); [done..|].
  destruct (parse_range_ok st st2 p d "viewcountRange" (VInt 0) float_1e9)
    as (st3 & E3 & P3 & L3 & C3); [done..|].
  destruct (parse_range_ok st st3 p d "numAnnoRange" (VInt 0) float_1e9)
    as (st4 & E4 & P4 & L4 & C4); [done..|].
  destruct (parse_range_ok st st4 p d "numPredRange" (VInt 0) float_1e9)
    as (st5 & E5 & P5 & L5 & C5); [done..|].
  exists st5. split; [|congruence].
  unfold bind at 1. rewrite E1. unfold bind at 1. rewrite E2.
  unfold bind at 1. rewrite E3. unfold bind at 1. rewrite E4.
  unfold bind at 1. rewrite E5.
  unfold expected_args, order_ok in *.
  unfold py_in, py_getitem, py_lower, deref, bind, ret, raise. simpl.
  destruct (d !! "orderBy") as [ob|] eqn:Hob;
    (destruct (d !! "order") as [[]|] eqn:Hord; try discriminate);
    destruct (d !! "limit") as [lim|] eqn:Hlim;
    repeat first
      [ rewrite L5 | rewrite Hob | rewrite Hord | rewrite Hlim
      | progress simpl ];
    reflexivity.
Qed.

(** X25. [_parse_range] returns [None] for [params = None] and for a name
    that [params] does not hold; for an entry it returns its bounds, a
    missing one replaced by the default passed in. [list_images] passes
    [datetime.time.min] and the current time as the defaults of
    [imageAddedRange] and [lastViewedRange], and [0] and [1e9] as those of
    [viewcountRange], [numAnnoRange] and [numPredRange]. *)
Theorem parse_range_defaults (lower : string → string) (st : state) (p : nat)
        (d : dict) (now : val) (project : string)
        (Hwf : well_formed_request st p d) :
  (∀ name lo hi, _parse_range VNone name lo hi st = (Ok None, st))
  ∧ (∀ name lo hi, d !! name = None →
                   _parse_range (VRef p) name lo hi st = (Ok None, st))
  ∧ (∀ name lo hi e ent,
       d !! name = Some (VRef e) → store st !! e = Some ent →
       (_parse_range (VRef p) name lo hi st).1
       = Ok (Some (default lo (ent !! "min"), default hi (ent !! "max"))))
  ∧ (∃ a st',
       list_images_args lower now (VRef p) project st = (Ok a, st')
       ∧ la_imageAddedRange a = range_of st d "imageAddedRange" (VTime 0 0 0 0) now
       ∧ la_lastViewedRange a = range_of st d "lastViewedRange" (VTime 0 0 0 0) now
       ∧ la_viewcountRange a
         = range_of st d "viewcountRange" (VInt 0) (VFloat (1000000000 # 1))
       ∧ la_numAnnoRange a
         = range_of st d "numAnnoRange" (VInt 0) (VFloat (1000000000 # 1))
       ∧ la_numPredRange a
         = range_of st d "numPredRange" (VInt 0) (VFloat (1000000000 # 1))).
Proof.
  pose proof Hwf as (Hp & _).
  split; [reflexivity|]. split.
  { intros name lo hi Hn. by apply (parse_range_absent st p d). }
  split.
  { intros name lo hi e ent Hn He.
    by rewrite (parse_range_entry st p e d ent name lo hi). }
  destruct (list_images_args_ok lower now project st p d Hwf) as (st' & E & _).
  exists (expected_args lower now st d project), st'. by rewrite E.
Qed.

Lemma parse_range_defaults_witness :
  well_formed_request sample_request 0 sample_params
  ∧ (_parse_range (VRef 0) "viewcountRange" (VInt 0) float_1e9 sample_request).1
    = Ok (Some (VInt 5, float_1e9))
  ∧ (_parse_range (VRef 0) "imageAddedRange" datetime_time_min (VDateTime 1700000000)
       sample_request).1
    = Ok (Some (datetime_time_min, VInt 1600000000)).
Proof.
  assert (Hwf : well_formed_request sample_request 0 sample_params)
    by (repeat split; reflexivity).
  split; [exact Hwf|].
  pose proof (parse_range_defaults ascii_lower sample_request 0 sample_params
                (VDateTime 1700000000) "project" Hwf) as (_ & _ & H & _).
  split.
  - exact (H "viewcountRange" (VInt 0) float_1e9 1%nat {[ "min" := VInt 5 ]}
             eq_refl eq_refl).
  - exact (H "imageAddedRange" datetime_time_min (VDateTime 1700000000) 2%nat
             {[ "max" := VInt 1600000000 ]} eq_refl eq_refl).
Defined.

(** C5. The default minimum of the two temporal filters is not an instant.
    For the body [{"imageAddedRange": {"max": 1600000000}}],
    [_parse_range] returns the time of day [datetime.time.min], that is
    [00:00:00], as the minimum, and [list_images] passes the pair on to the
    middleware; for [{"lastViewedRange": {}}] the pair passed on is that
    time of day and the [datetime.datetime] of the current time. The
    defaults of [list_images] for a count filter are [0] and [1e9]. *)
Theorem temporal_default_minimum_is_a_time_of_day (lower : string → string) (t : Z) :
  (_parse_range (VRef 0) "imageAddedRange" datetime_time_min (VDateTime t)
     max_only_request).1
  = Ok (Some (VTime 0 0 0 0, VInt 1600000000))
  ∧ (list_images (option (val * val)) lower (fun a => inr (la_imageAddedRange a)) true
       (VDateTime t) (VRef 0) "project" max_only_request).1
    = Ok (Response (Some (VTime 0 0 0 0, VInt 1600000000)))
  ∧ (list_images (option (val * val)) lower (fun a => inr (la_lastViewedRange a)) true
       (VDateTime t) (VRef 0) "project" empty_entry_request).1
    = Ok (Response (Some (VTime 0 0 0 0, VDateTime t)))
  ∧ is_instant (VTime 0 0 0 0) = false
  ∧ is_instant (VDateTime t) = true.
Proof. repeat split. Qed.

(** C9. [remove_images], for an authorised request whose body holds
    [images]: the removal is called once, with [forceRemove] and
    [deleteFromDisk] as the body gives them and [False] for each one the
    body does not hold; the answer is the outcome of that call, so a
    missing flag is no error. *)
Theorem remove_images_flags_default_false
        (R : Type) (removeImages : removeImages_args → exn + R)
        (project : string) (st : state) (p : nat) (d : dict) (imageIDs : val)
        (Hbody : store st !! p = Some d)
        (Himages : d !! "images" = Some imageIDs) :
  let a := {| ra_project := project;
              ra_imageIDs := imageIDs;
              ra_forceRemove := default (VBool false) (d !! "forceRemove");
              ra_deleteFromDisk := default (VBool false) (d !! "deleteFromDisk") |} in
  remove_images R removeImages true (VRef p) project st
  = (Ok (match removeImages a with
         | inr images_deleted => ImagesDeleted images_deleted
         | inl e => StatusError e
         end),
     {| store := store st; calls := calls st ++ [CallRemoveImages a] |})
  ∧ (d !! "forceRemove" = None → ra_forceRemove a = VBool false)
  ∧ (d !! "deleteFromDisk" = None → ra_deleteFromDisk a = VBool false).
Proof.
  intros a. split; [|split; intros H; unfold a; simpl; by rewrite H].
  unfold a, remove_images, try_except, call_removeImages.
  unfold py_in, py_getitem, deref, bind, ret, raise. simpl.
  destruct (d !! "forceRemove") as [force|] eqn:Hforce;
    destruct (d !! "deleteFromDisk") as [disk|] eqn:Hdisk;
    repeat first
      [ rewrite Hbody | rewrite Himages | rewrite Hforce | rewrite Hdisk
      | progress simpl ];
    match goal with
    | |- context [removeImages ?x] => destruct (removeImages x)
    end; reflexivity.
Qed.

Lemma remove_images_flags_default_false_witness :
  store images_only_request !! 0%nat
  = Some ({[ "images" := VList [VInt 7; VInt 9] ]} : dict)
  ∧ calls (remove_images val (fun a => inr (ra_imageIDs a)) true (VRef 0)
             "project" images_only_request).2
    = [CallRemoveImages {| ra_project := "project";
                           ra_imageIDs := VList [VInt 7; VInt 9];
                           ra_forceRemove := VBool false;
                           ra_deleteFromDisk := VBool false |}].
Proof.
  split; [reflexivity|].
  pose proof (remove_images_flags_default_false val (fun a => inr (ra_imageIDs a))
                "project" images_only_request 0
                {[ "images" := VList [VInt 7; VInt 9] ]}
                (VList [VInt 7; VInt 9]) eq_refl eq_refl) as [H _].
  rewrite H. reflexivity.
Defined.

(** ** Ordering and ranges of the image list *)

Lemma check_orderBy_unknown (sortable : list string) (ob : val) :
  ob ≠ VNone →
  (∀ s, ob = VStr s → s ∉ sortable) →
  check_orderBy sortable ob = None.
Proof.
  intros Hsome Hunknown. destruct ob; simpl; try done.
  case_bool_decide; [|done]. by destruct (Hunknown s).
Qed.

(** A computation that returns has returned at each of its steps. *)
Lemma bind_Ok {A B : Type} (m : M A) (k : A → M B) (st st'' : state) (b : B) :
  bind m k st = (Ok b, st'') →
  ∃ a st', m st = (Ok a, st') ∧ k a st' = (Ok b, st'').
Proof.
  unfold bind. destruct (m st) as [[a|e] st'] eqn:E; [|discriminate].
  intros H. by exists a, st'.
Qed.

(** A returning [_parse_range] leaves the objects of the store in place. *)
Lemma parse_range_keeps (params : val) (name : string) (lo hi : val)
      (st st' : state) (r : option (val * val)) (p : nat) (d : dict) :
  _parse_range params name lo hi st = (Ok r, st') →
  store st !! p = Some d →
  store st' !! p = Some d.
Proof.
  intros E Hp.
  destruct (parse_range_store params name lo hi st) as (fresh & Hs & _).
  rewrite E in Hs. simpl in Hs. rewrite Hs. by apply lookup_app_l_Some.
Qed.

(** Whenever the parsing phase of [list_images] returns, the [orderBy] it
    passes on is the one of the body, unchanged. *)
Lemma list_images_args_orderBy (lower : string → string) (now : val)
      (project : string) (st st' : state)
      (p : nat) (d : dict) (orderBy : val) (a : listImages_args) :
  store st !! p = Some d →
  d !! "orderBy" = Some orderBy →
  list_images_args lower now (VRef p) project st = (Ok a, st') →
  la_orderBy a = orderBy.
Proof.
  intros Hp Hob E. unfold list_images_args in E.
  apply bind_Ok in E as (r1 & st1 & E1 & E).
  apply (parse_range_keeps _ _ _ _ _ _ _ p d) in E1; [|done].
  apply bind_Ok in E as (r2 & st2 & E2 & E).
  apply (parse_range_keeps _ _ _ _ _ _ _ p d) in E2; [|done].
  apply bind_Ok in E as (r3 & st3 & E3 & E).
  apply (parse_range_keeps _ _ _ _ _ _ _ p d) in E3; [|done].
  apply bind_Ok in E as (r4 & st4 & E4 & E).
  apply (parse_range_keeps _ _ _ _ _ _ _ p d) in E4; [|done].
  apply bind_Ok in E as (r5 & st5 & E5 & E).
  apply (parse_range_keeps _ _ _ _ _ _ _ p d) in E5; [|done].
  apply bind_Ok in E as (hasOrderBy & st6 & E6 & E).
  unfold py_in, deref, bind, ret in E6. rewrite E5 in E6. simpl in E6.
  rewrite Hob in E6. injection E6 as <- <-.
  apply bind_Ok in E as (ob & st7 & E7 & E).
  unfold py_getitem, deref, bind, ret in E7. rewrite E5 in E7. simpl in E7.
  rewrite Hob in E7. injection E7 as <- <-.
  apply bind_Ok in E as (hasOrder & st8 & _ & E).
  apply bind_Ok in E as (order & st9 & _ & E).
  apply bind_Ok in E as (hasLimit & st10 & _ & E).
  apply bind_Ok in E as (limit & st11 & _ & E).
  unfold ret in E. by injection E as <- _.
Qed.

(** C3. With the query builder of the spec as the middleware, a request
    whose [orderBy] is supplied and is not a column of the allow-list gets no
    response: the value yields no query plan and [list_images] raises,
    whatever else the body holds; for an authorised, well-formed request the
    failure is [InvalidParameter]. *)
Theorem unknown_orderBy_fails_closed
        (lower : string → string)
        (sortable orders : list string) (default_limit : Z)
        (authorised : bool) (now : val) (project : string)
        (st : state) (p : nat) (d : dict) (orderBy : val)
        (Hbody : store st !! p = Some d)
        (HorderBy : d !! "orderBy" = Some orderBy)
        (Hsupplied : orderBy ≠ VNone)
        (Hunknown : ∀ s, orderBy = VStr s → s ∉ sortable) :
  check_orderBy sortable orderBy = None
  ∧ (∃ e st',
       list_images queryPlan lower (buildQuery sortable orders default_limit)
                   authorised now (VRef p) project st
       = (Raise e, st'))
  ∧ (authorised = true → well_formed_request st p d →
     (list_images queryPlan lower (buildQuery sortable orders default_limit)
                  authorised now (VRef p) project st).1
     = Raise (Failure InvalidParameter)).
Proof.
  assert (Hcheck : check_orderBy sortable orderBy = None)
    by (by apply check_orderBy_unknown).
  split; [done|]. split.
  - destruct authorised; [|by eexists _, _].
    unfold list_images. simpl. unfold bind at 1.
    destruct (list_images_args lower now (VRef p) project st) as [[a|e] st'] eqn:E;
      [|by eexists _, _].
    apply (list_images_args_orderBy _ _ _ _ _ p d orderBy) in E; [|done..].
    unfold bind, call_listImages, buildQuery. rewrite E, Hcheck.
    by eexists _, _.
  - intros -> Hwf.
    destruct (list_images_args_ok lower now project st p d Hwf) as (st' & E & _).
    unfold list_images. simpl. unfold bind at 1. rewrite E.
    unfold bind, call_listImages, buildQuery. simpl.
    rewrite HorderBy. simpl. by rewrite Hcheck.
Qed.

Lemma unknown_orderBy_fails_closed_witness :
  store drop_table_request !! 0%nat
  = Some ({[ "orderBy" := VStr "DROP TABLE image" ]} : dict)
  ∧ (list_images queryPlan ascii_lower
                 (buildQuery ["filename"; "viewcount"] ["asc"; "desc"] 100)
                 true (VDateTime 1700000000) (VRef 0) "project" drop_table_request).1
    = Raise (Failure InvalidParameter).
Proof.
  split; [reflexivity|].
  refine (proj2 (proj2 (unknown_orderBy_fails_closed ascii_lower ["filename"; "viewcount"]
                          ["asc"; "desc"] 100 true (VDateTime 1700000000) "project"
                          drop_table_request 0
                          {[ "orderBy" := VStr "DROP TABLE image" ]}
                          (VStr "DROP TABLE image") eq_refl eq_refl _ _))
                eq_refl _).
  - discriminate.
  - intros s [= <-] Hin.
    repeat (apply elem_of_cons in Hin as [Hin|Hin]; [discriminate|]).
    by apply elem_of_nil in Hin.
  - repeat split; reflexivity.
Defined.

Lemma Qle_bool_inject_Z (a b : Z) : Qle_bool (inject_Z a) (inject_Z b) = true ↔ a <= b.
Proof. rewrite Qle_bool_iff. by rewrite <- Zle_Qle. Qed.





(** * Further properties of the import script *)

(** ** Strings *)

Lemma ends_with_app (s p : list ascii) : PyStr.ends_with p (s ++ p) = true.
Proof. unfold PyStr.ends_with. rewrite rev_app_distr. apply starts_with_app. Qed.

Lemma contains_nil (s : list ascii) : PyStr.contains [] s = true.
Proof. by destruct s. Qed.

(** Where [old] does not occur, [replace] changes nothing. *)
Lemma replace_from_no_occurrence (old new s : list ascii) :
  PyStr.contains old s = false → PyStr.replace_from old new 0 s = s.
Proof.
  induction s as [|c s IH]; [done|].
  intros H. cbn [PyStr.contains] in H.
  apply orb_false_iff in H as [Hhere Hlater].
  cbn [PyStr.replace_from]. rewrite Hhere. by rewrite IH.
Qed.

Lemma replace_no_occurrence (old new s : list ascii) :
  PyStr.contains old s = false → PyStr.replace old new s = s.
Proof.
  intros H. destruct old as [|c old]; [by rewrite contains_nil in H|].
  by apply replace_from_no_occurrence.
Qed.

Lemma with_trailing_sep_ends (imgBaseDir : string) :
  str_endswith (with_trailing_sep imgBaseDir) os_sep = true.
Proof.
  unfold with_trailing_sep.
  destruct (str_endswith imgBaseDir os_sep) eqn:E; simpl; [done|].
  unfold str_endswith. rewrite chars_append. apply ends_with_app.
Qed.

(** X1. The base directory after lines 59-60 always ends with the
    separator and is never empty; a directory that already ends with the
    separator is left as it is, so the step is idempotent. *)
Theorem with_trailing_sep_spec (imgBaseDir : string) :
  str_endswith (with_trailing_sep imgBaseDir) os_sep = true
  ∧ with_trailing_sep imgBaseDir ≠ ""
  ∧ with_trailing_sep (with_trailing_sep imgBaseDir) = with_trailing_sep imgBaseDir
  ∧ (if str_endswith imgBaseDir os_sep
     then with_trailing_sep imgBaseDir = imgBaseDir
     else with_trailing_sep imgBaseDir = imgBaseDir +:+ os_sep).
Proof.
  pose proof (with_trailing_sep_ends imgBaseDir) as Hends.
  split; [done|]. split.
  { intros Hnil. rewrite Hnil in Hends. discriminate. }
  split.
  { unfold with_trailing_sep at 1. by rewrite Hends. }
  unfold with_trailing_sep. by destruct (str_endswith imgBaseDir os_sep).
Qed.

Lemma baseName_of_clean_path (imgBaseDir rest : string) :
  str_contains imgBaseDir rest = false →
  baseName imgBaseDir (imgBaseDir +:+ rest) = rest.
Proof.
  intros Hclean.
  assert (Hne : imgBaseDir ≠ "").
  { intros ->. unfold str_contains in Hclean. simpl in Hclean.
    by rewrite contains_nil in Hclean. }
  rewrite baseName_leading by done.
  unfold baseName, str_replace. simpl.
  rewrite replace_no_occurrence by done. apply str_chars.
Qed.

(** X2. For a path below the base directory whose remainder holds no
    further occurrence of the base directory, the key is the remainder: the
    path relative to the base directory. *)
Theorem baseName_relative (imgBaseDir rest : string)
        (Hclean : str_contains imgBaseDir rest = false) :
  baseName imgBaseDir (imgBaseDir +:+ rest) = rest.
Proof. by apply baseName_of_clean_path. Qed.

Lemma baseName_relative_witness :
  str_contains "/data/" "sub/d.png" = false
  ∧ baseName "/data/" ("/data/" +:+ "sub/d.png") = "sub/d.png".
Proof.
  split; [reflexivity|]. exact (baseName_relative "/data/" "sub/d.png" eq_refl).
Defined.

(** X3. A listed path that does not hold the base directory as a substring
    keeps its whole path as key: nothing is made relative. *)
Theorem baseName_foreign (imgBaseDir i : string)
        (Hforeign : str_contains imgBaseDir i = false) :
  baseName imgBaseDir i = i.
Proof.
  unfold baseName, str_replace. simpl.
  rewrite replace_no_occurrence by done. apply str_chars.
Qed.

Lemma baseName_foreign_witness :
  str_contains "/data/" "/mnt/images/a.jpg" = false
  ∧ baseName "/data/" "/mnt/images/a.jpg" = "/mnt/images/a.jpg".
Proof.
  split; [reflexivity|]. exact (baseName_foreign "/data/" "/mnt/images/a.jpg" eq_refl).
Defined.

(** ** [os.path.splitext] *)

(** X4. [os.path.splitext] loses nothing: root and extension put together
    are the path. The extension is empty, or it is a dot followed by
    characters among which there is neither a dot nor a separator. *)
Theorem splitext_spec (p : string) :
  (os_path_splitext p).1 +:+ (os_path_splitext p).2 = p
  ∧ ((os_path_splitext p).2 = ""
     ∨ ∃ e, (os_path_splitext p).2 = "." +:+ e
            ∧ str_contains "." e = false
            ∧ str_contains "/" e = false).
Proof.
  unfold os_path_splitext.
  pose proof (splitext_parts (chars p)) as H.
  destruct (PyStr.splitext (chars p)) as [root ext]. simpl.
  destruct H as [Hcat Hext]. split.
  - rewrite <- str_app, Hcat. apply str_chars.
  - destruct Hext as [->|(e & -> & Hdot & Hsep)]; [by left|].
    right. exists (str e). split; [done|].
    unfold str_contains. rewrite chars_str. simpl.
    split; by apply contains_char.
Qed.

(** ** The scan *)

Lemma lower_ascii_idempotent (c : ascii) :
  PyStr.lower_ascii (PyStr.lower_ascii c) = PyStr.lower_ascii c.
Proof. destruct c as [[] [] [] [] [] [] [] []]; reflexivity. Qed.

Lemma ascii_lower_idempotent (s : string) : ascii_lower (ascii_lower s) = ascii_lower s.
Proof.
  unfold ascii_lower. rewrite chars_str, map_map. f_equal.
  apply map_ext. intros c. apply lower_ascii_idempotent.
Qed.

(** X5. Where lowering a lowered string changes nothing, an entry of the
    allow-list that [str.lower()] changes matches no file: the extension is
    lowered before the comparison and the entry is not, so the scan selects
    the same paths as with those entries taken out of the allow-list. *)
Theorem uppercase_entries_never_match (lower : string → string)
        (fs : filesystem) (valid : list string) (i : string)
        (Hidempotent : ∀ s, lower (lower s) = lower s) :
  is_image_file lower fs valid i
  = is_image_file lower fs (filter (fun v => lower v = v) valid) i.
Proof.
  unfold is_image_file. destruct (os_path_isdir fs i); [done|].
  destruct (os_path_splitext i) as [root ext].
  assert (Hsame : bool_decide (lower ext ∈ valid)
                  = bool_decide (lower ext ∈ filter (fun v => lower v = v) valid)).
  { apply bool_decide_ext. rewrite list_elem_of_filter. split; [|tauto].
    intros H. split; [apply Hidempotent | done]. }
  by rewrite Hsame.
Qed.

Lemma uppercase_entries_never_match_witness :
  (∀ s, ascii_lower (ascii_lower s) = ascii_lower s)
  ∧ filter (fun v => ascii_lower v = v) [".JPG"; ".png"] = [".png"]
  ∧ is_image_file ascii_lower example_fs [".JPG"; ".png"] "/data/b.JPG"
    = is_image_file ascii_lower example_fs
        (filter (fun v => ascii_lower v = v) [".JPG"; ".png"]) "/data/b.JPG".
Proof.
  split; [exact ascii_lower_idempotent|]. split; [reflexivity|].
  exact (uppercase_entries_never_match ascii_lower example_fs [".JPG"; ".png"]
           "/data/b.JPG" ascii_lower_idempotent).
Defined.

(** X6. The scan depends on the listing only as a set: two listings of the
    same paths, in any order and with any repetition, give the same set of
    keys. *)
Theorem locate_depends_on_listed_set (lower : string → string)
        (fs1 fs2 : filesystem) (valid : list string) (imgBaseDir : string)
        (Hsame : ∀ i, i ∈ listDirectory fs1 imgBaseDir ↔ i ∈ listDirectory fs2 imgBaseDir)
        (Hdirs : ∀ i, os_path_isdir fs1 i = os_path_isdir fs2 i) :
  locate lower fs1 valid imgBaseDir = locate lower fs2 valid imgBaseDir.
Proof.
  assert (Hsel : ∀ i, is_image_file lower fs1 valid i = is_image_file lower fs2 valid i).
  { intros i. unfold is_image_file. by rewrite Hdirs. }
  apply set_eq. intros b. unfold locate.
  rewrite !elem_of_fold_locate_step.
  split; (intros [H|(i & Hi & Hs & Hb)]; [by left|]; right; exists i).
  - rewrite <- Hsame, <- Hsel. done.
  - rewrite Hsame, Hsel. done.
Qed.

Lemma locate_depends_on_listed_set_witness :
  (∀ i, i ∈ listDirectory example_fs "/data/" ↔ i ∈ listDirectory shuffled_fs "/data/")
  ∧ locate ascii_lower example_fs [".jpg"; ".png"] "/data/"
    = locate ascii_lower shuffled_fs [".jpg"; ".png"] "/data/".
Proof.
  assert (H : ∀ i, i ∈ listDirectory example_fs "/data/"
                   ↔ i ∈ listDirectory shuffled_fs "/data/").
  { intros i. simpl. rewrite !elem_of_cons, !elem_of_nil. tauto. }
  split; [exact H|].
  exact (locate_depends_on_listed_set ascii_lower example_fs shuffled_fs [".jpg"; ".png"]
           "/data/" H (fun _ => eq_refl)).
Defined.

(** ** Ingestion and the whole script *)

(** X8. When the [SELECT] gives [None], the script takes the table for
    empty: every candidate is passed to the insert, a candidate that is
    registered already among them, and the rows are not all new to the
    table. *)
Theorem ingest_after_failed_select
        (execute_select : list string → option (list string))
        (insert_conflict : list string → list string → insert_outcome)
        (imgs : gset string) (tbl : list string) (f : string)
        (Hfail : execute_select tbl = None)
        (Hcandidate : f ∈ imgs)
        (Hregistered : f ∈ tbl) :
  inserted (ingest execute_select insert_conflict imgs tbl) = elements imgs
  ∧ f ∈ inserted (ingest execute_select insert_conflict imgs tbl)
  ∧ all_new tbl (inserted (ingest execute_select insert_conflict imgs tbl)) = false.
Proof.
  assert (Hins : inserted (ingest execute_select insert_conflict imgs tbl) = elements imgs).
  { unfold ingest, difference. simpl. rewrite Hfail. by rewrite difference_empty_L. }
  assert (Hf : f ∈ inserted (ingest execute_select insert_conflict imgs tbl)).
  { rewrite Hins. by apply elem_of_elements. }
  split; [done|]. split; [done|].
  unfold all_new. apply andb_false_iff. left.
  apply not_true_iff_false. intros Hall.
  rewrite forallb_forall in Hall. apply list_elem_of_In, Hall in Hf.
  apply negb_true_iff, bool_decide_eq_false in Hf. done.
Qed.

Lemma ingest_after_failed_select_witness :
  select_fails ["a.jpg"] = None
  ∧ "a.jpg" ∈ ({[ "a.jpg" ]} : gset string)
  ∧ "a.jpg" ∈ ["a.jpg"]
  ∧ inserted (ingest select_fails refuse_insert {[ "a.jpg" ]} ["a.jpg"])
    = elements ({[ "a.jpg" ]} : gset string).
Proof.
  assert (H1 : "a.jpg" ∈ ({[ "a.jpg" ]} : gset string))
    by (by apply elem_of_singleton).
  assert (H2 : "a.jpg" ∈ ["a.jpg"]) by apply list_elem_of_here.
  split; [reflexivity|]. split; [exact H1|]. split; [exact H2|].
  exact (proj1 (ingest_after_failed_select select_fails refuse_insert {[ "a.jpg" ]}
                  ["a.jpg"] "a.jpg" eq_refl H1 H2)).
Defined.

Lemma registered_after_ingest
      (execute_select : list string → option (list string))
      (insert_conflict : list string → list string → insert_outcome)
      (imgs : gset string) (tbl : list string) :
  execute_select tbl = Some tbl →
  (list_to_set (table_after (ingest execute_select insert_conflict imgs tbl)) : gset string)
  = list_to_set tbl ∪ imgs.
Proof.
  intros Hselect. apply set_eq. intros f.
  rewrite elem_of_list_to_set, table_after_ingest, elem_of_app,
    elem_of_inserted, elem_of_union, elem_of_list_to_set by done.
  destruct (decide (f ∈ tbl)); tauto.
Qed.

(** X9. With a [SELECT] that returns the rows of the table, the file names
    registered after ingestion are those registered before together with
    the candidates. *)
Theorem ingest_registers_candidates
        (execute_select : list string → option (list string))
        (insert_conflict : list string → list string → insert_outcome)
        (imgs : gset string) (tbl : list string)
        (Hselect : execute_select tbl = Some tbl) :
  (list_to_set (table_after (ingest execute_select insert_conflict imgs tbl)) : gset string)
  = list_to_set tbl ∪ imgs.
Proof. by apply registered_after_ingest. Qed.

Lemma ingest_registers_candidates_witness :
  select_rows ["b.jpg"] = Some ["b.jpg"]
  ∧ (list_to_set (table_after (ingest select_rows refuse_insert {[ "a.jpg"; "b.jpg" ]} ["b.jpg"]))
     : gset string)
    = list_to_set ["b.jpg"] ∪ {[ "a.jpg"; "b.jpg" ]}.
Proof.
  split; [reflexivity|].
  exact (ingest_registers_candidates select_rows refuse_insert {[ "a.jpg"; "b.jpg" ]}
           ["b.jpg"] eq_refl).
Defined.

(** X10. With a [SELECT] that returns the rows of the table, ingesting two
    batches one after the other leaves the rows that ingesting their union
    leaves, up to the order of the rows; in particular the order of the two
    batches does not matter. *)
Theorem ingest_two_batches
        (execute_select : list string → option (list string))
        (insert_conflict : list string → list string → insert_outcome)
        (A B : gset string) (tbl : list string)
        (Hselect : ∀ t, execute_select t = Some t) :
  table_after (ingest execute_select insert_conflict B (table_after (ingest execute_select insert_conflict A tbl)))
  ≡ₚ table_after (ingest execute_select insert_conflict (A ∪ B) tbl)
  ∧ table_after (ingest execute_select insert_conflict B (table_after (ingest execute_select insert_conflict A tbl)))
    ≡ₚ table_after (ingest execute_select insert_conflict A (table_after (ingest execute_select insert_conflict B tbl))).
Proof.
  assert (Hunion : ∀ X Y : gset string,
    table_after (ingest execute_select insert_conflict Y (table_after (ingest execute_select insert_conflict X tbl)))
    ≡ₚ table_after (ingest execute_select insert_conflict (X ∪ Y) tbl)).
  { intros X Y. rewrite !table_after_ingest, !inserted_honest by done.
    set (T := list_to_set tbl : gset string).
    set (T' := list_to_set (tbl ++ elements (X ∖ T)) : gset string).
    assert (Hin' : ∀ f, f ∈ T' ↔ f ∈ T ∨ (f ∈ X ∧ f ∉ T)).
    { intros f. unfold T', T.
      rewrite elem_of_list_to_set, elem_of_app, elem_of_elements,
        elem_of_difference, elem_of_list_to_set. done. }
    assert (Hdisj : X ∖ T ## Y ∖ T').
    { apply elem_of_disjoint. intros f.
      rewrite !elem_of_difference, Hin'. tauto. }
    assert (Heq : (X ∪ Y) ∖ T = (X ∖ T) ∪ (Y ∖ T')).
    { apply set_eq. intros f.
      rewrite elem_of_union, !elem_of_difference, elem_of_union, Hin'.
      destruct (decide (f ∈ X)), (decide (f ∈ T)); tauto. }
    rewrite Heq, (elements_disj_union _ _ Hdisj). by rewrite app_assoc. }
  split; [apply Hunion|].
  rewrite (Hunion A B), (Hunion B A). by rewrite (union_comm_L A B).
Qed.

Lemma ingest_two_batches_witness :
  (∀ t, select_rows t = Some t)
  ∧ table_after (ingest select_rows refuse_insert {[ "b.jpg" ]}
                   (table_after (ingest select_rows refuse_insert {[ "a.jpg" ]} ["c.jpg"])))
    ≡ₚ table_after (ingest select_rows refuse_insert ({[ "a.jpg" ]} ∪ {[ "b.jpg" ]}) ["c.jpg"]).
Proof.
  split; [reflexivity|].
  exact (proj1 (ingest_two_batches select_rows refuse_insert {[ "a.jpg" ]} {[ "b.jpg" ]}
                  ["c.jpg"] (fun _ => eq_refl))).
Defined.

(** A second ingestion of the same candidates is a no-op. *)
Lemma second_ingest_noop
      (execute_select : list string → option (list string))
      (insert_conflict : list string → list string → insert_outcome)
      (imgs : gset string) (tbl : list string) :
  (∀ t, execute_select t = Some t) →
  inserted (ingest execute_select insert_conflict imgs (table_after (ingest execute_select insert_conflict imgs tbl)))
  = []
  ∧ table_after (ingest execute_select insert_conflict imgs
                   (table_after (ingest execute_select insert_conflict imgs tbl)))
    = table_after (ingest execute_select insert_conflict imgs tbl).
Proof.
  intros Hselect.
  assert (Hnone : inserted (ingest execute_select insert_conflict imgs
                              (table_after (ingest execute_select insert_conflict imgs tbl))) = []).
  { rewrite inserted_honest, table_after_ingest, inserted_honest by done.
    rewrite nothing_left_to_insert. apply elements_empty. }
  split; [done|].
  rewrite (table_after_ingest execute_select insert_conflict imgs (table_after _)), Hnone
    by done.
  apply app_nil_r.
Qed.

(** X11. The script stops with the exception of line 57 exactly when the
    configured directory is not a directory. Otherwise, with a [SELECT] that
    returns the rows of the table, every key of the scan is registered
    afterwards, nothing else is added, and a second run right after
    inserts nothing. *)
Theorem main_registers_the_scan
        (lower : string → string) (fs : filesystem) (valid : list string)
        (execute_select : list string → option (list string))
        (insert_conflict : list string → list string → insert_outcome)
        (staticfiles_dir : string) (tbl : list string)
        (Hselect : ∀ t, execute_select t = Some t) :
  (os_path_isdir fs staticfiles_dir = false
   → main lower fs valid execute_select insert_conflict staticfiles_dir tbl = None)
  ∧ (os_path_isdir fs staticfiles_dir = true
     → ∃ r, main lower fs valid execute_select insert_conflict staticfiles_dir tbl = Some r
            ∧ (list_to_set (table_after r) : gset string)
              = list_to_set tbl ∪ locate lower fs valid (with_trailing_sep staticfiles_dir)
            ∧ ∃ r', main lower fs valid execute_select insert_conflict staticfiles_dir (table_after r) = Some r'
                    ∧ inserted r' = []
                    ∧ table_after r' = table_after r).
Proof.
  unfold main. split; intros Hdir; rewrite Hdir; simpl; [done|].
  set (imgs := locate lower fs valid (with_trailing_sep staticfiles_dir)).
  eexists. split; [reflexivity|]. cbn [table_after inserted].
  split; [by apply registered_after_ingest|].
  eexists. split; [reflexivity|]. cbn [table_after inserted].
  by apply second_ingest_noop.
Qed.

Lemma main_registers_the_scan_witness :
  (∀ t, select_rows t = Some t)
  ∧ os_path_isdir example_fs "/data" = true
  ∧ ∃ r, main ascii_lower example_fs [".jpg"; ".png"] select_rows refuse_insert "/data" ["a.jpg"] = Some r
         ∧ (list_to_set (table_after r) : gset string)
           = list_to_set ["a.jpg"]
             ∪ locate ascii_lower example_fs [".jpg"; ".png"] (with_trailing_sep "/data")
         ∧ ∃ r', main ascii_lower example_fs [".jpg"; ".png"] select_rows refuse_insert "/data" (table_after r)
                 = Some r'
                 ∧ inserted r' = []
                 ∧ table_after r' = table_after r.
Proof.
  split; [reflexivity|]. split; [reflexivity|].
  exact (proj2 (main_registers_the_scan ascii_lower example_fs [".jpg"; ".png"]
                  select_rows refuse_insert "/data" ["a.jpg"] (fun _ => eq_refl))
           eq_refl).
Defined.

(** X12. The configured directory may be given with or without the
    trailing separator: when both spellings are directories (or both are
    not), the two runs of the script are the same. *)
Theorem main_trailing_separator
        (lower : string → string) (fs : filesystem) (valid : list string)
        (execute_select : list string → option (list string))
        (insert_conflict : list string → list string → insert_outcome)
        (staticfiles_dir : string) (tbl : list string)
        (Hbare : str_endswith staticfiles_dir os_sep = false)
        (Hdir : os_path_isdir fs staticfiles_dir
                = os_path_isdir fs (staticfiles_dir +:+ os_sep)) :
  main lower fs valid execute_select insert_conflict staticfiles_dir tbl
  = main lower fs valid execute_select insert_conflict (staticfiles_dir +:+ os_sep) tbl.
Proof.
  unfold main. rewrite <- Hdir.
  destruct (os_path_isdir fs staticfiles_dir); simpl; [|done].
  assert (H1 : with_trailing_sep staticfiles_dir = staticfiles_dir +:+ os_sep).
  { unfold with_trailing_sep. by rewrite Hbare. }
  assert (H2 : with_trailing_sep (staticfiles_dir +:+ os_sep)
               = staticfiles_dir +:+ os_sep).
  { unfold with_trailing_sep at 1.
    by rewrite <- H1 at 1; rewrite with_trailing_sep_ends. }
  by rewrite H1, H2.
Qed.

Lemma main_trailing_separator_witness :
  str_endswith "/data" os_sep = false
  ∧ os_path_isdir example_fs "/data" = os_path_isdir example_fs ("/data" +:+ os_sep)
  ∧ main ascii_lower example_fs [".jpg"; ".png"] select_rows refuse_insert "/data" []
    = main ascii_lower example_fs [".jpg"; ".png"] select_rows refuse_insert ("/data" +:+ os_sep) [].
Proof.
  split; [reflexivity|]. split; [reflexivity|].
  exact (main_trailing_separator ascii_lower example_fs [".jpg"; ".png"] select_rows
           refuse_insert "/data" [] eq_refl eq_refl).
Defined.

(** * Further properties of the request handlers *)

(** ** [_parse_range] on malformed requests *)

(** X13. For [params] that is neither [None] nor a dictionary (a JSON
    string, array, number or boolean), [_parse_range] never returns a range:
    it returns [None] or raises [TypeError], and leaves the state as it
    is. *)
Theorem parse_range_non_mapping
        (params : val) (paramName : string) (minValue maxValue : val)
        (st : state)
        (Hnot_dict : ∀ l, params ≠ VRef l) :
  (_parse_range params paramName minValue maxValue st = (Ok None, st)
   ∨ _parse_range params paramName minValue maxValue st = (Raise TypeError, st)).
Proof.
  unfold_ops. destruct params; simpl; try (by right); try (by left).
  - destruct (str_contains paramName s); simpl; [by right | by left].
  - destruct (existsb (is_str paramName) l); simpl; [by right | by left].
  - by destruct (Hnot_dict l).
Qed.

Lemma parse_range_non_mapping_witness :
  (∀ l, VStr "all images" ≠ VRef l)
  ∧ (_parse_range (VStr "all images") "viewcountRange" (VInt 0) float_1e9 min_only_request
     = (Ok None, min_only_request)
     ∨ _parse_range (VStr "all images") "viewcountRange" (VInt 0) float_1e9 min_only_request
       = (Raise TypeError, min_only_request)).
Proof.
  assert (H : ∀ l, VStr "all images" ≠ VRef l) by discriminate.
  split; [exact H|].
  exact (parse_range_non_mapping (VStr "all images") "viewcountRange" (VInt 0)
           float_1e9 min_only_request H).
Defined.

(** X14. When the entry of the name is not a dictionary, [_parse_range]
    raises and returns no range: [TypeError] for a list, [AttributeError]
    for every other value; the state stays as it is. *)
Theorem parse_range_malformed_entry
        (st : state) (p : nat) (d : dict) (paramName : string)
        (entry minValue maxValue : val)
        (Hparams : store st !! p = Some d)
        (Hentry : d !! paramName = Some entry)
        (Hnot_dict : ∀ l, entry ≠ VRef l) :
  _parse_range (VRef p) paramName minValue maxValue st
  = (Raise (match entry with VList _ => TypeError | _ => AttributeError end), st).
Proof.
  unfold_ops. rewrite Hparams. simpl. rewrite Hentry. simpl.
  rewrite Hparams. simpl. rewrite Hentry. simpl.
  destruct entry; simpl; try reflexivity.
  - destruct (existsb (is_str "min") l); simpl; [|reflexivity].
    destruct (existsb (is_str "max") l); reflexivity.
  - by destruct (Hnot_dict l).
Qed.

Lemma parse_range_malformed_entry_witness :
  store images_only_request !! 0%nat
  = Some ({[ "images" := VList [VInt 7; VInt 9] ]} : dict)
  ∧ _parse_range (VRef 0) "images" (VInt 0) float_1e9 images_only_request
    = (Raise TypeError, images_only_request).
Proof.
  split; [reflexivity|].
  refine (parse_range_malformed_entry images_only_request 0
            {[ "images" := VList [VInt 7; VInt 9] ]} "images"
            (VList [VInt 7; VInt 9]) (VInt 0) float_1e9 eq_refl eq_refl _).
  discriminate.
Defined.

(** ** Requests that are refused or fail *)

(** X15. Without authorisation each of the five handlers behind the login
    check raises the HTTP error 401 [forbidden]: the body is not read, the
    store is not touched and the middleware is not called. *)
Theorem unauthorised_requests_are_refused
        (S R : Type) (lower : string → string)
        (listImages : listImages_args → exn + R)
        (removeImages : removeImages_args → exn + R)
        (addExistingImages : string → val → exn + (S * R))
        (uploadImages : string → val → exn + R)
        (scanForImages : string → exn + R)
        (now body : val) (project : string) (st : state) :
  list_images R lower listImages false now body project st
  = (Raise (HTTPError 401 "forbidden"), st)
  ∧ remove_images R removeImages false body project st
    = (Raise (HTTPError 401 "forbidden"), st)
  ∧ add_images S R addExistingImages false body project st
    = (Raise (HTTPError 401 "forbidden"), st)
  ∧ upload_images R uploadImages false body project st
    = (Raise (HTTPError 401 "forbidden"), st)
  ∧ scan_for_images R scanForImages false project st
    = (Raise (HTTPError 401 "forbidden"), st).
Proof. repeat split. Qed.

(** X16. A request to [list_images] whose body is missing ([None]) or is a
    JSON number or boolean fails with [TypeError] before the middleware is
    called, although [_parse_range] itself accepts [None]. *)
Theorem list_images_without_filter_object
        (R : Type) (lower : string → string)
        (listImages : listImages_args → exn + R)
        (now body : val) (project : string) (st : state)
        (Hscalar : match body with
                   | VNone | VBool _ | VInt _ | VFloat _ => True
                   | _ => False
                   end) :
  list_images R lower listImages true now body project st = (Raise TypeError, st).
Proof. destruct body; try done; reflexivity. Qed.

Lemma list_images_without_filter_object_witness :
  list_images val ascii_lower (fun a => inr (la_limit a)) true (VDateTime 1700000000) VNone
              "project" min_only_request
  = (Raise TypeError, min_only_request).
Proof.
  exact (list_images_without_filter_object val ascii_lower (fun a => inr (la_limit a))
           (VDateTime 1700000000) VNone "project" min_only_request I).
Defined.

(** ** [remove_images] and [add_images] *)

(** X17. An authorised [remove_images] never raises: whatever the body and
    whatever the middleware does, it answers, with the deleted images or
    with status [1]. It leaves the store as it is and calls the middleware
    at most once. *)
Theorem remove_images_always_answers
        (R : Type) (removeImages : removeImages_args → exn + R)
        (body : val) (project : string) (st : state) :
  ∃ answer st',
    remove_images R removeImages true body project st = (Ok answer, st')
    ∧ store st' = store st
    ∧ ((calls st' = calls st ∧ ∃ e, answer = StatusError e)
       ∨ ∃ a, calls st' = calls st ++ [CallRemoveImages a]).
Proof.
  unfold remove_images, try_except, call_removeImages.
  unfold py_in, py_getitem, deref, bind, ret, raise. simpl.
  destruct body; simpl;
    try (eexists _, _; split; [reflexivity|]; split; [reflexivity|];
         left; split; [reflexivity | by eexists]).
  repeat match goal with
    | |- context [match ?x with _ => _ end] =>
        lazymatch x with
        | context [match _ with _ => _ end] => fail
        | _ => destruct x eqn:?; simpl
        end
    end;
    eexists _, _; (split; [reflexivity|]); (split; [reflexivity|]);
    first [ left; split; [reflexivity | by eexists] | right; by eexists ].
Qed.

(** X18. A body without [images] removes nothing: for a body that is not a
    dictionary the answer is status [1] with a [TypeError], for a
    dictionary without the key it is status [1] with [KeyError('images')];
    the middleware is not called, whatever flags the body holds. *)
Theorem remove_images_without_images
        (R : Type) (removeImages : removeImages_args → exn + R)
        (body : val) (project : string) (st : state) (p : nat) (d : dict) :
  ((∀ l, body ≠ VRef l) →
   remove_images R removeImages true body project st
   = (Ok (StatusError TypeError), st))
  ∧ (store st !! p = Some d → d !! "images" = None →
     remove_images R removeImages true (VRef p) project st
     = (Ok (StatusError (KeyError "images")), st)).
Proof.
  split.
  - intros Hnot. destruct body; try reflexivity. by destruct (Hnot l).
  - intros Hp Himages.
    unfold remove_images, try_except, py_getitem, deref, bind, ret, raise. simpl.
    rewrite Hp. simpl. by rewrite Himages.
Qed.

Lemma remove_images_without_images_witness :
  store drop_table_request !! 0%nat
  = Some ({[ "orderBy" := VStr "DROP TABLE image" ]} : dict)
  ∧ remove_images val (fun a => inr (ra_imageIDs a)) true (VRef 0) "project"
                  drop_table_request
    = (Ok (StatusError (KeyError "images")), drop_table_request).
Proof.
  split; [reflexivity|].
  exact (proj2 (remove_images_without_images val (fun a => inr (ra_imageIDs a))
                  VNone "project" drop_table_request 0
                  {[ "orderBy" := VStr "DROP TABLE image" ]})
               eq_refl eq_refl).
Defined.

(** X19. An authorised [add_images] never raises and leaves the state as
    it is. For a body that is a dictionary with [images], the value under
    the key goes to the middleware unchanged and the answer is the status
    and result it returns, or status [1] when it raises; without the key the
    answer is status [1] with [KeyError('images')]. *)
Theorem add_images_answers
        (S R : Type) (addExistingImages : string → val → exn + (S * R))
        (body : val) (project : string) (st : state) (p : nat) (d : dict) :
  (∃ answer, add_images S R addExistingImages true body project st = (Ok answer, st))
  ∧ (store st !! p = Some d →
     add_images S R addExistingImages true (VRef p) project st
     = (Ok (match d !! "images" with
            | None => AddError (KeyError "images")
            | Some images =>
                match addExistingImages project images with
                | inr (status, result) => AddResult status result
                | inl e => AddError e
                end
            end), st)).
Proof.
  unfold add_images, try_except, middleware_result, py_getitem, deref, bind,
    ret, raise. simpl.
  split.
  - destruct body; simpl; try by eexists.
    destruct (store st !! l) as [d'|]; simpl; [|by eexists].
    destruct (d' !! "images") as [images|]; simpl; [|by eexists].
    destruct (addExistingImages project images) as [e|[status result]];
      by eexists.
  - intros Hp. rewrite Hp. simpl.
    destruct (d !! "images") as [images|]; simpl; [|done].
    by destruct (addExistingImages project images) as [e|[status result]].
Qed.

Lemma add_images_answers_witness :
  store images_only_request !! 0%nat
  = Some ({[ "images" := VList [VInt 7; VInt 9] ]} : dict)
  ∧ add_images Z val (fun _ images => inr (0, images)) true (VRef 0) "project"
               images_only_request
    = (Ok (AddResult 0 (VList [VInt 7; VInt 9])), images_only_request).
Proof.
  split; [reflexivity|].
  exact (proj2 (add_images_answers Z val (fun _ images => inr (0, images))
                  VNone "project" images_only_request 0
                  {[ "images" := VList [VInt 7; VInt 9] ]})
               eq_refl).
Defined.

(** ** What [list_images] does to the state *)

Lemma grows_refl (st : state) : grows 0 st st.
Proof. exists []. by rewrite app_nil_r. Qed.

Lemma grows_trans (n m : nat) (st st' st'' : state) :
  grows n st st' → grows m st' st'' → grows (n + m) st st''.
Proof.
  intros (f1 & S1 & L1 & C1) (f2 & S2 & L2 & C2). exists (f1 ++ f2).
  rewrite S2, S1, app_assoc, length_app. split; [done|]. split; [lia|congruence].
Qed.

Lemma grows_bind {A B : Type} (n k : nat) (m : M A) (f : A → M B) :
  (∀ st, grows n st (m st).2) →
  (∀ a st, grows k st (f a st).2) →
  ∀ st, grows (n + k) st (bind m f st).2.
Proof.
  intros Hm Hf st. unfold bind. specialize (Hm st).
  destruct (m st) as [[a|e] st']; simpl in *.
  - eapply grows_trans; [exact Hm | apply Hf].
  - replace (n + k)%nat with (n + k + 0)%nat by lia.
    eapply grows_trans; [|apply grows_refl].
    destruct Hm as (fr & ? & ? & ?). exists fr. split; [done|]. split; [lia|done].
Qed.

Lemma py_in_state (key : string) (container : val) (st : state) :
  (py_in key container st).2 = st.
Proof.
  unfold py_in, deref, bind, ret, raise.
  destruct container; simpl; try done. by destruct (store st !! l).
Qed.

Lemma py_getitem_state (container : val) (key : string) (st : state) :
  (py_getitem container key st).2 = st.
Proof.
  unfold py_getitem, deref, bind, ret, raise.
  destruct container; simpl; try done.
  destruct (store st !! l) as [d|]; simpl; [|done]. by destruct (d !! key).
Qed.

Lemma py_lower_state (lower : string → string) (v : val) (st : state) :
  (py_lower lower v st).2 = st.
Proof. by destruct v. Qed.

(** The optional parameters [orderBy], [order] and [limit] are read
    without a change of the state. *)
Lemma optional_parameter_grows (lower : string → string) (params : val)
      (key : string) (lowered : bool) :
  ∀ st, grows 0 st
          (bind (py_in key params)
                (fun present =>
                   if present
                   then (if lowered
                         then bind (py_getitem params key) (py_lower lower)
                         else py_getitem params key)
                   else ret VNone) st).2.
Proof.
  intros st. unfold bind at 1.
  pose proof (py_in_state key params st) as Hin.
  destruct (py_in key params st) as [[present|e] st1]; simpl in *; subst st1;
    [|apply grows_refl].
  destruct present; [|apply grows_refl].
  destruct lowered.
  - unfold bind. pose proof (py_getitem_state params key st) as Hget.
    destruct (py_getitem params key st) as [[v|e] st1]; simpl in *; subst st1;
      [|apply grows_refl].
    rewrite py_lower_state. apply grows_refl.
  - rewrite py_getitem_state. apply grows_refl.
Qed.

(** The parsing phase of [list_images] adds at most five objects to the
    store (the copies of the five entries) and calls no middleware. *)
Lemma list_images_args_grows (lower : string → string) (now params : val)
      (project : string) (st : state) :
  grows 5 st (list_images_args lower now params project st).2.
Proof.
  unfold list_images_args.
  apply (grows_bind 1 4); [intros; apply parse_range_store|]. intros r1.
  apply (grows_bind 1 3); [intros; apply parse_range_store|]. intros r2.
  apply (grows_bind 1 2); [intros; apply parse_range_store|]. intros r3.
  apply (grows_bind 1 1); [intros; apply parse_range_store|]. intros r4.
  apply (grows_bind 1 0); [intros; apply parse_range_store|]. intros r5.
  intros st0.
  pose proof (optional_parameter_grows lower params "orderBy" false) as HorderBy.
  pose proof (optional_parameter_grows lower params "order" true) as Horder.
  pose proof (optional_parameter_grows lower params "limit" false) as Hlimit.
  unfold bind in *.
  specialize (HorderBy st0).
  destruct (py_in "orderBy" params st0) as [[b1|e1] st1]; [|exact HorderBy].
  destruct (if b1 then py_getitem params "orderBy" else ret VNone)
    as [[orderBy|e2] st2] eqn:E2 in *; [|exact HorderBy].
  specialize (Horder st2).
  destruct (py_in "order" params st2) as [[b3|e3] st3];
    [|exact (grows_trans 0 0 _ _ _ HorderBy Horder)].
  destruct (if b3 then _ else ret VNone) as [[order|e4] st4] eqn:E4 in *;
    [|exact (grows_trans 0 0 _ _ _ HorderBy Horder)].
  specialize (Hlimit st4).
  destruct (py_in "limit" params st4) as [[b5|e5] st5];
    [|exact (grows_trans 0 0 _ _ _ (grows_trans 0 0 _ _ _ HorderBy Horder) Hlimit)].
  destruct (if b5 then py_getitem params "limit" else ret VNone)
    as [[limit|e6] st6] eqn:E6 in *;
    exact (grows_trans 0 0 _ _ _ (grows_trans 0 0 _ _ _ HorderBy Horder) Hlimit).
Qed.

(** X20. Whatever the request, [list_images] changes no object of the
    store: it adds at most five objects (the copies of the filter entries)
    and calls the middleware at most once. *)
Theorem list_images_leaves_the_store
        (R : Type) (lower : string → string)
        (listImages : listImages_args → exn + R)
        (authorised : bool) (now body : val) (project : string) (st : state) :
  ∃ fresh : list dict,
    store (list_images R lower listImages authorised now body project st).2
    = store st ++ fresh
    ∧ (length fresh ≤ 5)%nat
    ∧ (calls (list_images R lower listImages authorised now body project st).2 = calls st
       ∨ ∃ a, calls (list_images R lower listImages authorised now body project st).2
              = calls st ++ [CallListImages a]).
Proof.
  destruct authorised; simpl;
    [|exists []; rewrite app_nil_r; split; [done|]; split; [simpl; lia | by left]].
  destruct (list_images_args_grows lower now body project st) as (fresh & Hs & Hl & Hc).
  exists fresh. unfold list_images, bind, call_listImages, ret. simpl.
  destruct (list_images_args lower now body project st) as [[a|e] st1]; simpl in *.
  - destruct (listImages a); simpl; (split; [done|]); (split; [done|]);
      right; exists a; by rewrite Hc.
  - split; [done|]. split; [done|]. by left.
Qed.

(** X21. For an authorised request with a well-formed body, [list_images]
    calls the middleware exactly once: with the range of each filter (its
    bounds, the missing ones filled in, or [None] without an entry), with
    [orderBy] and [limit] as the body has them or [None], and with what
    [str.lower()] makes of [order]. The answer is the result of the
    middleware, and an exception of the middleware is passed on. *)
Theorem list_images_calls_middleware_once
        (R : Type) (lower : string → string)
        (listImages : listImages_args → exn + R)
        (now : val) (project : string) (st : state) (p : nat) (d : dict)
        (Hwf : well_formed_request st p d) :
  ∃ st',
    list_images R lower listImages true now (VRef p) project st
    = (match listImages (expected_args lower now st d project) with
       | inr result => Ok (Response result)
       | inl e => Raise e
       end, st')
    ∧ calls st' = calls st ++ [CallListImages (expected_args lower now st d project)].
Proof.
  destruct (list_images_args_ok lower now project st p d Hwf) as (st1 & E & Hc).
  unfold list_images. simpl. unfold bind at 1. rewrite E.
  unfold bind, call_listImages, ret.
  destruct (listImages (expected_args lower now st d project));
    eexists; (split; [reflexivity|]); simpl; by rewrite Hc.
Qed.

Lemma list_images_calls_middleware_once_witness :
  well_formed_request ordered_request 0 {[ "order" := VStr "DESC"; "limit" := VInt 10 ]}
  ∧ ∃ st',
      list_images val ascii_lower (fun a => inr (la_order a)) true (VDateTime 1700000000)
                  (VRef 0) "project" ordered_request
      = (Ok (Response (VStr "desc")), st').
Proof.
  assert (Hwf : well_formed_request ordered_request 0
                  {[ "order" := VStr "DESC"; "limit" := VInt 10 ]})
    by (repeat split; reflexivity).
  split; [exact Hwf|].
  destruct (list_images_calls_middleware_once val ascii_lower (fun a => inr (la_order a))
              (VDateTime 1700000000) "project" ordered_request 0
              {[ "order" := VStr "DESC"; "limit" := VInt 10 ]} Hwf)
    as (st' & E & _).
  exists st'. exact E.
Defined.

(** The parsing phase of [list_images] on a body whose [order] is not a
    string. *)
Lemma list_images_args_order_error (lower : string → string) (now : val)
      (project : string) (st : state) (p : nat) (d : dict) (order : val) :
  store st !! p = Some d →
  Forall (fun name => filter_entry_ok st d name = true) filter_names →
  d !! "order" = Some order →
  (∀ s, order ≠ VStr s) →
  ∃ st', list_images_args lower now (VRef p) project st = (Raise AttributeError, st')
         ∧ calls st' = calls st.
Proof.
  intros Hp Hfilters Hord Hnot.
  unfold filter_names in Hfilters.
  repeat match goal with
    | H : Forall _ (_ :: _) |- _ => apply Forall_cons in H as [? H]
    end.
  unfold list_images_args.
  destruct (parse_range_ok st st p d "imageAddedRange" datetime_time_min now)
    as (st1 & E1 & P1 & L1 & C1); [done..|].
  destruct (parse_range_ok st st1 p d "lastViewedRange" datetime_time_min now)
    as (st2 & E2 & P2 & L2 & C2); [done..|].
  destruct (parse_range_ok st st2 p d "viewcountRange" (VInt 0) float_1e9)
    as (st3 & E3 & P3 & L3 & C3); [done..|].
  destruct (parse_range_ok st st3 p d "numAnnoRange" (VInt 0) float_1e9)
    as (st4 & E4 & P4 & L4 & C4); [done..|].
  destruct (parse_range_ok st st4 p d "numPredRange" (VInt 0) float_1e9)
    as (st5 & E5 & P5 & L5 & C5); [done..|].
  exists st5. split; [|congruence].
  unfold bind at 1. rewrite E1. unfold bind at 1. rewrite E2.
  unfold bind at 1. rewrite E3. unfold bind at 1. rewrite E4.
  unfold bind at 1. rewrite E5.
  unfold py_in, py_getitem, py_lower, deref, bind, ret, raise. simpl.
  destruct (d !! "orderBy") as [ob|] eqn:Hob;
    repeat first [ rewrite L5 | rewrite Hob | rewrite Hord | progress simpl ];
    (destruct order; try reflexivity; by destruct (Hnot s)).
Qed.

(** X22. [order] must be a string: when the body holds an [order] that is
    not a string (a number, a boolean, [null], a list or an object),
    [list_images] raises [AttributeError] and the middleware is not
    called. *)
Theorem list_images_order_must_be_string
        (R : Type) (lower : string → string)
        (listImages : listImages_args → exn + R)
        (now : val) (project : string) (st : state) (p : nat) (d : dict)
        (order : val)
        (Hbody : store st !! p = Some d)
        (Hfilters : Forall (fun name => filter_entry_ok st d name = true) filter_names)
        (Horder : d !! "order" = Some order)
        (Hnot_string : ∀ s, order ≠ VStr s) :
  ∃ st',
    list_images R lower listImages true now (VRef p) project st
    = (Raise AttributeError, st')
    ∧ calls st' = calls st.
Proof.
  destruct (list_images_args_order_error lower now project st p d order)
    as (st' & E & Hc); [done..|].
  exists st'. unfold list_images. simpl. unfold bind. by rewrite E.
Qed.

Lemma list_images_order_must_be_string_witness :
  store numeric_order_request !! 0%nat = Some ({[ "order" := VInt 1 ]} : dict)
  ∧ Forall (fun name => filter_entry_ok numeric_order_request {[ "order" := VInt 1 ]} name
                        = true) filter_names
  ∧ ∃ st',
      list_images val ascii_lower (fun a => inr (la_order a)) true (VDateTime 1700000000)
                  (VRef 0) "project" numeric_order_request
      = (Raise AttributeError, st')
      ∧ calls st' = calls numeric_order_request.
Proof.
  assert (Hf : Forall (fun name => filter_entry_ok numeric_order_request
                                     {[ "order" := VInt 1 ]} name = true)
                      filter_names)
    by (repeat constructor).
  split; [reflexivity|]. split; [exact Hf|].
  refine (list_images_order_must_be_string val ascii_lower (fun a => inr (la_order a))
            (VDateTime 1700000000) "project" numeric_order_request 0
            {[ "order" := VInt 1 ]} (VInt 1) eq_refl Hf eq_refl _).
  discriminate.
Defined.

(** Objects of the store that a request refers to are found again in a
    store that has only grown. *)
Lemma filter_entry_ok_prefix (st st' : state) (d : dict) (name : string) :
  store st `prefix_of` store st' →
  filter_entry_ok st d name = true →
  filter_entry_ok st' d name = true ∧ ∀ lo hi, range_of st' d name lo hi = range_of st d name lo hi.
Proof.
  intros Hpre. unfold filter_entry_ok, range_of.
  destruct (d !! name) as [[]|]; try done.
  destruct (store st !! l) as [ent|] eqn:He; [|done]. intros _.
  by rewrite (prefix_lookup_Some _ _ _ _ He Hpre).
Qed.

(** X23. A request can be repeated: after an authorised [list_images] on a
    well-formed body, a second [list_images] on the same body, at a later
    time [now'], calls the middleware with the ranges of the body as it was
    sent, the missing bounds filled in from [now'] and not from the first
    call. *)
Theorem list_images_is_repeatable
        (R : Type) (lower : string → string)
        (listImages : listImages_args → exn + R)
        (now now' : val) (project : string) (st : state) (p : nat) (d : dict)
        (Hwf : well_formed_request st p d) :
  ∃ st'',
    list_images R lower listImages true now' (VRef p) project
                (list_images R lower listImages true now (VRef p) project st).2
    = (match listImages (expected_args lower now' st d project) with
       | inr result => Ok (Response result)
       | inl e => Raise e
       end, st'').
Proof.
  set (st' := (list_images R lower listImages true now (VRef p) project st).2).
  assert (Hpre : store st `prefix_of` store st').
  { destruct (list_images_args_grows lower now (VRef p) project st) as (fresh & Hs & _).
    unfold st', list_images, bind, call_listImages, ret. simpl.
    destruct (list_images_args lower now (VRef p) project st) as [[a|e] st1]; simpl in *.
    - destruct (listImages a); simpl; rewrite Hs; by apply prefix_app_r.
    - rewrite Hs. by apply prefix_app_r. }
  destruct Hwf as (Hp & H1 & H2 & H3 & H4 & H5 & Ho).
  destruct (filter_entry_ok_prefix st st' d "imageAddedRange" Hpre H1) as [H1' R1].
  destruct (filter_entry_ok_prefix st st' d "lastViewedRange" Hpre H2) as [H2' R2].
  destruct (filter_entry_ok_prefix st st' d "viewcountRange" Hpre H3) as [H3' R3].
  destruct (filter_entry_ok_prefix st st' d "numAnnoRange" Hpre H4) as [H4' R4].
  destruct (filter_entry_ok_prefix st st' d "numPredRange" Hpre H5) as [H5' R5].
  assert (Hwf' : well_formed_request st' p d).
  { split; [by eapply prefix_lookup_Some|]. done. }
  destruct (list_images_args_ok lower now' project st' p d Hwf') as (st1 & E & _).
  assert (Hargs : expected_args lower now' st' d project = expected_args lower now' st d project).
  { unfold expected_args. by rewrite R1, R2, R3, R4, R5. }
  rewrite Hargs in E.
  unfold list_images. simpl. unfold bind at 1. rewrite E.
  unfold bind, call_listImages, ret.
  destruct (listImages (expected_args lower now' st d project)); by eexists.
Qed.

Lemma list_images_is_repeatable_witness :
  well_formed_request sample_request 0 sample_params
  ∧ ∃ st'',
      list_images (option (val * val)) ascii_lower (fun a => inr (la_imageAddedRange a)) true
                  (VDateTime 1700000060) (VRef 0) "project"
                  (list_images (option (val * val)) ascii_lower (fun a => inr (la_imageAddedRange a))
                               true (VDateTime 1700000000) (VRef 0) "project"
                               sample_request).2
      = (Ok (Response (Some (datetime_time_min, VInt 1600000000))), st'').
Proof.
  assert (Hwf : well_formed_request sample_request 0 sample_params)
    by (repeat split; reflexivity).
  split; [exact Hwf|].
  exact (list_images_is_repeatable (option (val * val)) ascii_lower
           (fun a => inr (la_imageAddedRange a))
           (VDateTime 1700000000) (VDateTime 1700000060) "project"
           sample_request 0 sample_params Hwf).
Defined.

(** [upload_images] catches what the middleware raises and answers
    with status [1], as [add_images] and [remove_images] do, whereas
    [scan_for_images] passes the exception on; both hand the project and,
    for the upload, the files to the middleware as they are and leave the
    state as it is. *)
Theorem upload_catches_scan_raises
        (R : Type)
        (uploadImages : string → val → exn + R)
        (scanForImages : string → exn + R)
        (files : val) (project : string) (st : state) :
  upload_images R uploadImages true files project st
  = (Ok (match uploadImages project files with
         | inr result => UploadResult result
         | inl e => UploadError e
         end), st)
  ∧ scan_for_images R scanForImages true project st
    = (match scanForImages project with
       | inr result => Ok (Response result)
       | inl e => Raise e
       end, st).
Proof.
  unfold upload_images, scan_for_images, try_except, middleware_result, bind, ret.
  simpl. split.
  - by destruct (uploadImages project files).
  - by destruct (scanForImages project).
Qed.

(** X24. When every listed path is the base directory followed by a
    remainder in which the base directory does not occur again, the keys
    of the scan are exactly the remainders of the selected paths: the paths
    relative to the base directory. *)
Theorem locate_relative_keys
        (lower : string → string)
        (fs : filesystem) (valid : list string) (imgBaseDir : string)
        (Hbelow : ∀ i, i ∈ listDirectory fs imgBaseDir →
                       ∃ rest, i = imgBaseDir +:+ rest
                               ∧ str_contains imgBaseDir rest = false) :
  ∀ b, b ∈ locate lower fs valid imgBaseDir
       ↔ (imgBaseDir +:+ b) ∈ listDirectory fs imgBaseDir
         ∧ str_contains imgBaseDir b = false
         ∧ is_image_file lower fs valid (imgBaseDir +:+ b) = true.
Proof.
  intros b. unfold locate. rewrite elem_of_fold_locate_step. split.
  - intros [H|(i & Hi & Hsel & Hb)]; [by apply not_elem_of_empty in H|].
    destruct (Hbelow i Hi) as (rest & -> & Hclean).
    rewrite baseName_of_clean_path in Hb by done. by subst b.
  - intros (Hi & Hclean & Hsel). right. exists (imgBaseDir +:+ b).
    split; [done|]. split; [done|]. by rewrite baseName_of_clean_path.
Qed.

Lemma locate_relative_keys_witness :
  (∀ i, i ∈ listDirectory example_fs "/data/" →
        ∃ rest, i = "/data/" +:+ rest ∧ str_contains "/data/" rest = false)
  ∧ ("sub/d.png" ∈ locate ascii_lower example_fs [".jpg"; ".png"] "/data/"
     ↔ ("/data/" +:+ "sub/d.png") ∈ listDirectory example_fs "/data/"
       ∧ str_contains "/data/" "sub/d.png" = false
       ∧ is_image_file ascii_lower example_fs [".jpg"; ".png"] ("/data/" +:+ "sub/d.png") = true).
Proof.
  assert (H : ∀ i, i ∈ listDirectory example_fs "/data/" →
                   ∃ rest, i = "/data/" +:+ rest ∧ str_contains "/data/" rest = false).
  { intros i Hi. simpl in Hi.
    repeat (apply elem_of_cons in Hi as [->|Hi];
            [eexists; split; [simpl; reflexivity | reflexivity]|]).
    by apply elem_of_nil in Hi. }
  split; [exact H|].
  exact (locate_relative_keys ascii_lower example_fs [".jpg"; ".png"] "/data/" H
           "sub/d.png").
Defined.
